(** * Xenomapper: classification and partitioning of alignment records

    A shallow embedding of [xenomapper/xenomapper.py] (version 1.0.1) and the
    properties of its tag extractor, mapping-state classifier, header
    annotator and single-end main loop.

    Conventions of the embedding:
    - a Python [str] is a [string]; the header and record text comes from
      [line.decode('ascii')], so every character is one [ascii];
    - a Python [float] is a [spec_float] (IEEE 754 binary64: [prec = 53],
      [emax = 1024]) with the comparisons of [SpecFloat];
    - a Python [list] of strings is a [list string]; where the program
      copies and appends to list objects, the objects live in a store;
    - a call either returns a value or raises: [result A]. *)

From Stdlib Require Import ZArith Ascii String SpecFloat.
From stdpp Require Import base option list gmap strings pretty sorting.

Local Open Scope Z_scope.

(** ** Exceptions and results *)

(** The [ValueError]s of the program, by the values formatted into their
    message:
    - [BadHeader h]: ['Incorrect SAM header format :\n' + '\n'.join(h)];
    - [MultipleValues tag sam_line]:
      ['SAM line has multiple values of {tag}: {sam_line}'];
    - [BadFloat s]: the built-in [float] could not convert [s]. *)
Inductive value_error : Type :=
  | BadHeader (new_header : list string)
  | MultipleValues (tag : string) (sam_line : list string)
  | BadFloat (text : string).

Inductive exn : Type :=
  | ValueError (why : value_error)
  | IndexError
  | NameError (name : string)
  | RuntimeError (message : string).

Inductive result (A : Type) : Type :=
  | Return (a : A)
  | Raise (e : exn).
Arguments Return {A} a.
Arguments Raise {A} e.

(** Sequencing: the first exception raised ends the computation. *)
#[global] Instance result_ret : MRet result := fun A a => Return a.
#[global] Instance result_bind : MBind result := fun A B k r =>
  match r with
  | Return a => k a
  | Raise e => Raise e
  end.

Definition returned {A : Type} (r : result A) : option A :=
  match r with
  | Return a => Some a
  | Raise _ => None
  end.

Definition raises {A : Type} (r : result A) : bool :=
  match r with
  | Return _ => false
  | Raise _ => true
  end.

(** ** Python floats *)

Module Float.

Definition neg_inf : spec_float := S754_infinity true.
Definition pos_inf : spec_float := S754_infinity false.
Definition nan : spec_float := S754_nan.
Definition zero : spec_float := S754_zero false.

  (** [int] to [float] conversion, rounding to nearest even. *)
Definition of_Z (z : Z) : spec_float := binary_normalize 53 1024 z 0 false.

  (** [a <= b] and [a > b]: false as soon as one side is a NaN. *)
Definition le (a b : spec_float) : bool := SFleb a b.
Definition gt (a b : spec_float) : bool := SFltb b a.
Definition ge (a b : spec_float) : bool := SFleb b a.
Definition lt (a b : spec_float) : bool := SFltb a b.

  (** [bool(x)], that is [x != 0.0]: both zeros are false, a NaN is true. *)
Definition truth (x : spec_float) : bool := negb (SFeqb x zero).

Definition is_nan (x : spec_float) : bool :=
    match x with
    | S754_nan => true
    | _ => false
    end.

Definition is_zero (x : spec_float) : bool :=
    match x with
    | S754_zero _ => true
    | _ => false
    end.

End Float.

(** ** The classifier *)

(** [get_mapping_state(AS1, XS1, min_score)].  The last branch formats
    [(AS1,XS1,AS2,XS2)] for a [RuntimeError]; [AS2] is bound nowhere, so the
    evaluation of the message stops with a [NameError]. *)
Definition get_mapping_state (AS1 XS1 min_score : spec_float) : result string :=
  if Float.le AS1 min_score then
    Return "unassigned"
  else if Float.gt AS1 min_score then
    if negb (Float.truth XS1) || Float.gt AS1 XS1 then
      Return "primary_specific"
    else
      Return "primary_multi"
  else
    Raise (NameError "AS2").

(** The default of [min_score]. *)
Definition default_min_score : spec_float := Float.neg_inf.

(** ** Python strings and lists *)

Module Str.

Definition TAB : string := String "009" "".
Definition LF : string := String "010" "".

  (** [s[:n]] and [s[n:]] for [n >= 0]; slices never raise. *)
Fixpoint take (n : nat) (s : string) : string :=
    match n, s with
    | S n', String c s' => String c (take n' s')
    | _, _ => ""
    end.

Fixpoint drop (n : nat) (s : string) : string :=
    match n, s with
    | S n', String _ s' => drop n' s'
    | _, _ => s
    end.

  (** [s[0]]: [IndexError] on the empty string. *)
Definition first (s : string) : result ascii :=
    match s with
    | String c _ => Return c
    | "" => Raise IndexError
    end.

Fixpoint startswith (p s : string) : bool :=
    match p, s with
    | "", _ => true
    | String a p', String b s' => bool_decide (a = b) && startswith p' s'
    | String _ _, "" => false
    end.

  (** [sub in s]. *)
Fixpoint contains (sub s : string) : bool :=
    startswith sub s ||
    match s with
    | "" => false
    | String _ s' => contains sub s'
    end.

  (** [s.split(sep)] for a separator of one character: never empty, the
      pieces between the separators, empty pieces kept. *)
Fixpoint split (sep : ascii) (s : string) : list string :=
    match s with
    | "" => [""]
    | String c s' =>
        if bool_decide (c = sep) then "" :: split sep s'
        else match split sep s' with
             | w :: ws => String c w :: ws
             | [] => [String c ""]
             end
    end.

  (** [c.isspace()] on the code points below 256. *)
Definition is_space (c : ascii) : bool :=
    match c with
    | "009" | "010" | "011" | "012" | "013"
    | "028" | "029" | "030" | "031" | " " | "133" | "160" => true
    | _ => false
    end%char.

  (** [s.split()]: the maximal runs of characters that are not white
      space. *)
Fixpoint split_ws (s : string) : list string :=
    match s with
    | "" => []
    | String c s' =>
        if is_space c then split_ws s'
        else match s' with
             | "" => [String c ""]
             | String c' _ =>
                 if is_space c' then String c "" :: split_ws s'
                 else match split_ws s' with
                      | w :: ws => String c w :: ws
                      | [] => [String c ""]
                      end
             end
    end.

  (** [sep.join(l)]. *)
Fixpoint join (sep : string) (l : list string) : string :=
    match l with
    | [] => ""
    | [x] => x
    | x :: l' => x +:+ sep +:+ join sep l'
    end.

(** [c in chars] for one character. *)
Fixpoint has_char (c : ascii) (chars : string) : bool :=
  match chars with
  | "" => false
  | String a r => bool_decide (a = c) || has_char c r
  end.

(** [s.lstrip(chars)], [s.rstrip(chars)] and [s.strip(chars)]: the
    characters of [chars] taken off the front, the back, and both. *)
Fixpoint lstrip (chars s : string) : string :=
  match s with
  | "" => ""
  | String a s' => if has_char a chars then lstrip chars s' else s
  end.

Fixpoint rstrip (chars s : string) : string :=
  match s with
  | "" => ""
  | String a s' =>
      let r := rstrip chars s' in
      if has_char a chars && bool_decide (r = "") then "" else String a r
  end.

Definition strip (chars s : string) : string := rstrip chars (lstrip chars s).

End Str.

(** [l[0]] and [l[-1]]: [IndexError] on the empty list. *)
Definition item_first {A : Type} (l : list A) : result A :=
  match l with
  | x :: _ => Return x
  | [] => Raise IndexError
  end.

Definition item_last {A : Type} (l : list A) : result A :=
  match last l with
  | Some x => Return x
  | None => Raise IndexError
  end.

(** A comprehension [[f(x) for x in l]]: the first exception ends it. *)
Fixpoint comprehension {A B : Type} (f : A → result B) (l : list A)
  : result (list B) :=
  match l with
  | [] => Return []
  | x :: l' => y ← f x; ys ← comprehension f l'; Return (y :: ys)
  end.

(** ** The tag extractor *)

Section GetTag.

  (** The built-in [float] on strings is not part of the program: any
      conversion function is allowed. *)
Variable float : string → result spec_float.

  (** [get_tag(sam_line, tag)]. *)
Definition get_tag (sam_line : list string) (tag : string)
    : result spec_float :=
    let tag_list := List.filter (Str.contains tag) (drop 11 sam_line) in
    if bool_decide (tag_list = []) then
      Return Float.neg_inf
    else if bool_decide (1 < length tag_list)%nat then
      Raise (ValueError (MultipleValues tag sam_line))
    else
      x ← item_first tag_list;
      value ← item_last (Str.split ":" x);
      float value.

End GetTag.

(** The built-in [float] on the literals that integer-typed score tags
    carry: an optional sign followed by decimal digits, or by [inf],
    [infinity] or [nan].  Other texts are reported as [BadFloat]; the
    built-in accepts more of them (fractions, exponents, padding), so this
    function is used for worked examples only and the theorems on [get_tag]
    hold for every conversion function. *)
Fixpoint digits_value (acc : Z) (s : string) : option Z :=
  match s with
  | "" => Some acc
  | String c s' =>
      d ← Ascii.is_nat c; digits_value (10 * acc + Z.of_nat d) s'
  end.

Definition float_of_literal (text : string) : result spec_float :=
  let '(negative, body) :=
    match text with
    | String "-" r => (true, r)
    | String "+" r => (false, r)
    | _ => (false, text)
    end in
  if bool_decide (body = "inf" ∨ body = "infinity") then
    Return (S754_infinity negative)
  else if bool_decide (body = "nan") then
    Return Float.nan
  else
    match body, digits_value 0 body with
    | String _ _, Some 0 => Return (S754_zero negative)
    | String _ _, Some z => Return (Float.of_Z (if negative then - z else z))
    | _, _ => Raise (ValueError (BadFloat text))
    end.

(** ** The header annotator *)

Definition version : string := "1.0.1".

(** The value of [PP]: when the last line starts with [@PG], the first
    white-space separated piece of it that starts with [ID], without these
    two letters, between [PP] and a tab. *)
Definition previous_program (new_header : list string) : result string :=
  last_line ← item_last new_header;
  if bool_decide (Str.take 3 last_line = "@PG") then
    ident ← item_first
      (List.filter (fun x => bool_decide (Str.take 2 x = "ID"))
         (Str.split_ws last_line));
    Return ("PP" +:+ Str.drop 2 ident +:+ Str.TAB)
  else
    Return "".

Definition pg_line (PP : string) : string :=
  "@PG" +:+ Str.TAB +:+ "ID:Xenomapper" +:+ Str.TAB +:+ "PN:Xenomapper"
    +:+ Str.TAB +:+ PP +:+ "VN:" +:+ version.

Definition co_line (comment : string) : string :=
  "@CO" +:+ Str.TAB +:+ comment.

(** [if comment:] holds for a string that is not empty; [None] and [''] are
    false. *)
Definition comment_given (comment : option string) : option string :=
  match comment with
  | Some (String _ _ as c) => Some c
  | _ => None
  end.

(** The test on the first characters; [x[0]] raises on an empty line before
    the comparison is made. *)
Definition check_header (new_header : list string) : result unit :=
  marks ← comprehension Str.first new_header;
  if negb (bool_decide (marks = replicate (length new_header) "@"%char)) then
    Raise (ValueError (BadHeader new_header))
  else
    Return ().

(** [add_pg_tag(sam_header_list, comment)] on the values of the lists. *)
Definition add_pg_tag (sam_header_list : list string) (comment : option string)
  : result (list string) :=
  let new_header := sam_header_list in
  _ ← check_header new_header;
  PP ← previous_program new_header;
  let new_header := new_header ++ [pg_line PP] in
  let new_header :=
    match comment_given comment with
    | Some c => new_header ++ [co_line c]
    | None => new_header
    end in
  Return new_header.

(** The same function on list objects: [copy] allocates a new list,
    [append] updates the list it is called on. *)
Module Store.

Definition loc : Type := positive.

Abbreviation store := (gmap loc (list string)).

  (** The lines of the list at [l]; a reference held by the program always
      designates a list. *)
Definition read (σ : store) (l : loc) : list string := default [] (σ !! l).

Definition copy (σ : store) (l : loc) : store * loc :=
    let l' := fresh (dom σ) in (<[l' := read σ l]> σ, l').

Definition append (σ : store) (l : loc) (x : string) : store :=
    alter (fun xs => xs ++ [x]) l σ.

Definition add_pg_tag (σ : store) (sam_header_list : loc)
      (comment : option string) : store * result loc :=
    let '(σ, new_header) := copy σ sam_header_list in
    match check_header (read σ new_header) with
    | Raise e => (σ, Raise e)
    | Return _ =>
        match previous_program (read σ new_header) with
        | Raise e => (σ, Raise e)
        | Return PP =>
            let σ := append σ new_header (pg_line PP) in
            let σ :=
              match comment_given comment with
              | Some c => append σ new_header (co_line c)
              | None => σ
              end in
            (σ, Return new_header)
        end
    end.

End Store.

(** ** The main loop *)

(** An output file is known by its handle; [print(text, file=f)] adds the
    text and a line feed to what was written, in the order of the calls. *)
Definition handle : Type := nat.

Definition print (text : string) (file : handle)
    (written : list (handle * string)) : list (handle * string) :=
  written ++ [(file, text +:+ Str.LF)].

(** [if file: print(text, file=file)]: a file object is true, [None] is
    false. *)
Definition print_if (file : option handle) (text : string)
    (written : list (handle * string)) : list (handle * string) :=
  match file with
  | Some f => print text f written
  | None => written
  end.

(** [category_counts[state] += 1] on a [Counter]: a missing key reads 0. *)
Definition count (category_counts : gmap string nat) (state : string) : nat :=
  default 0%nat (category_counts !! state).

Definition increment (state : string) (category_counts : gmap string nat)
  : gmap string nat :=
  <[state := S (count category_counts state)]> category_counts.

Record run : Type := {
  category_counts : gmap string nat;
  written : list (handle * string)
}.

Definition start : run := {| category_counts := ∅; written := [] |}.

(** The body of [for line1 in readpairs]. *)
Definition loop_body (primary_specific primary_multi unassigned : option handle)
    (min_score : spec_float)
    (tag_func : list string → string → result spec_float)
    (st : run) (line1 : list string) : result run :=
  AS1 ← tag_func line1 "AS";
  XS1 ← tag_func line1 "XS";
  state ← get_mapping_state AS1 XS1 min_score;
  let counts := increment state (category_counts st) in
  let text := Str.join Str.TAB line1 in
  if bool_decide (state = "primary_specific") then
    Return {| category_counts := counts;
              written := print_if primary_specific text (written st) |}
  else if bool_decide (state = "primary_multi") then
    Return {| category_counts := counts;
              written := print_if primary_multi text (written st) |}
  else if bool_decide (state = "unassigned") then
    Return {| category_counts := counts;
              written := print_if unassigned text (written st) |}
  else
    Raise (RuntimeError ("Unexpected state " +:+ state +:+ " ")).

(** The loop from a state on: the state reached, and the exception that
    ended the loop if one did.  What was printed before an exception stays
    printed. *)
Fixpoint loop (primary_specific primary_multi unassigned : option handle)
    (min_score : spec_float)
    (tag_func : list string → string → result spec_float)
    (readpairs : list (list string)) (st : run) : run * option exn :=
  match readpairs with
  | [] => (st, None)
  | line1 :: rest =>
      match loop_body primary_specific primary_multi unassigned min_score
              tag_func st line1 with
      | Return st' =>
          loop primary_specific primary_multi unassigned min_score tag_func
            rest st'
      | Raise e => (st, Some e)
      end
  end.

(** [main_single_end(readpairs, primary_specific, primary_multi, unassigned,
    min_score, tag_func)]: the value returned or the exception raised, and
    the lines printed. *)
Definition main_single_end (readpairs : list (list string))
    (primary_specific primary_multi unassigned : option handle)
    (min_score : spec_float)
    (tag_func : list string → string → result spec_float)
  : result (gmap string nat) * list (handle * string) :=
  let '(st, e) :=
    loop primary_specific primary_multi unassigned min_score tag_func
      readpairs start in
  (match e with
   | None => Return (category_counts st)
   | Some e => Raise e
   end, written st).

(** The categories of the single-end mode. *)
Definition categories : list string :=
  ["unassigned"; "primary_specific"; "primary_multi"].

(** ** The reader of records *)

(** How the generator stopped: the test of its loop failed, or [next(bam1)]
    found no further line and raised [StopIteration] inside the
    generator. *)
Inductive ending : Type :=
  | LoopEnded
  | StopIteration.

(** [getBamReadPairs(bamfile1)] on the lines that [bam_lines(bamfile1)]
    yields, which come from the decoding process and are taken as given:
    the records yielded, in order, and how the generator stopped. *)
Fixpoint getBamReadPairs (bam1 : list string)
  : list (list string) * ending :=
  match bam1 with
  | [] => ([], StopIteration)
  | line :: rest =>
      let line1 := Str.split_ws (Str.strip Str.LF line) in
      if negb (bool_decide (line1 = []))
         && negb (bool_decide (line1 = [""])) then
        let '(yielded, e) := getBamReadPairs rest in (line1 :: yielded, e)
      else
        ([], LoopEnded)
  end.

(** A field of a record as the reader yields it: not empty and free of
    white space. *)
Definition field (w : string) : Prop :=
  w ≠ "" ∧ Forall (fun c => Str.is_space c = false) (list_ascii_of_string w).

#[global] Instance field_dec (w : string) : Decision (field w).
Proof. unfold field. apply _. Defined.

(** After a character that is not white space, the first piece goes on
    into [s] unless [s] is empty or starts with white space. *)
Definition at_boundary (s : string) : bool :=
  match s with
  | "" => true
  | String c _ => Str.is_space c
  end.

(** The line that [main_single_end] prints for a record. *)
Definition printed (line1 : list string) : string :=
  Str.join Str.TAB line1 +:+ Str.LF.

(** ** The headers of the output files *)

(** [sys.stdout], where [print] writes when its [file] is [None]. *)
Definition stdout : handle := 0%nat.

(** [print('\n'.join(add_pg_tag(samheader1, comment=comment)), file=file)]:
    what is written after it, and the exception if the annotation
    raised. *)
Definition print_header (samheader1 : list string) (comment : string)
    (file : option handle) (written : list (handle * string))
  : list (handle * string) * option exn :=
  match add_pg_tag samheader1 (Some comment) with
  | Return new_header =>
      (print (Str.join Str.LF new_header) (default stdout file) written, None)
  | Raise e => (written, Some e)
  end.

(** [process_headers(file1, primary_specific, primary_multi, unassigned)]
    on the header lines [samheader1] that [get_bam_header(file1)] returns,
    which come from the decoding process and are taken as given. *)
Definition process_headers (samheader1 : list string)
    (primary_specific primary_multi unassigned : option handle)
    (written : list (handle * string))
  : list (handle * string) * option exn :=
  match print_header samheader1 "species specific reads" primary_specific
          written with
  | (written, Some e) => (written, Some e)
  | (written, None) =>
      match
        match primary_multi with
        | Some _ =>
            print_header samheader1 "species specific multimapping reads"
              primary_multi written
        | None => (written, None)
        end
      with
      | (written, Some e) => (written, Some e)
      | (written, None) =>
          match unassigned with
          | Some _ =>
              print_header samheader1 "reads that could not be assigned"
                unassigned written
          | None => (written, None)
          end
      end
  end.

(** [get_bam_header(bamfile)] on the lines of the header that the decoding
    process prints, taken as given: each line without the line feeds at its
    ends. *)
Definition get_bam_header (header : list string) : list string :=
  Str.strip Str.LF <$> header.

(** ** The summary *)

(** [c * n] for a character. *)
Fixpoint repeat_char (c : ascii) (n : nat) : string :=
  match n with
  | O => ""
  | S n' => String c (repeat_char c n')
  end.

(** The format fields [{:<width>s}] and [{:<width>d}]: a string is padded
    with spaces on its right, a number on its left; neither is cut. *)
Definition format_s (width : nat) (s : string) : string :=
  s +:+ repeat_char " " (width - String.length s).

Definition format_d (width : nat) (n : nat) : string :=
  repeat_char " " (width - String.length (pretty n)) +:+ pretty n.

(** [sorted(category_counts)]: the keys in increasing order. *)
Definition sorted_keys (category_counts : gmap string nat) : list string :=
  merge_sort String.le (map_to_list category_counts).*1.

Definition summary_rule : string := repeat_char "-" 80.

Definition summary_head : string :=
  "|       " +:+ format_s 45 "Category" +:+ "|     " +:+ format_s 10 "Count"
    +:+ "  |".

Definition summary_bar : string :=
  "|:" +:+ repeat_char "-" 50 +:+ ":|:" +:+ repeat_char "-" 15 +:+ ":|".

Definition summary_row (category : string) (n : nat) : string :=
  "|  " +:+ format_s 50 category +:+ "|" +:+ format_d 15 n +:+ "  |".

(** [output_summary(category_counts, outfile)]. *)
Definition output_summary (category_counts : gmap string nat)
    (outfile : handle) (written : list (handle * string))
  : list (handle * string) :=
  let written := print summary_rule outfile written in
  let written :=
    print ("Read Count Category Summary" +:+ Str.LF) outfile written in
  let written := print summary_head outfile written in
  let written := print summary_bar outfile written in
  let written :=
    foldl (fun written category =>
             print (summary_row category (count category_counts category))
               outfile written)
      written (sorted_keys category_counts) in
  print "" outfile written.

(** ** Notions used in the statements *)

(** [sub] occurs in [s]. *)
Definition substring (sub s : string) : Prop :=
  ∃ pre post, s = pre +:+ sub +:+ post.

Definition char_in (c : ascii) (s : string) : Prop :=
  ∃ pre post, s = pre +:+ String c post.

(** [v] is what follows the last [sep] of [s], or all of [s] when [s] has
    no [sep]. *)
Definition after_last (sep : ascii) (s v : string) : Prop :=
  ¬ char_in sep v ∧ (s = v ∨ ∃ pre, s = pre +:+ String sep v).

(** The sum of the counts of a counter. *)
Definition total (category_counts : gmap string nat) : nat :=
  map_fold (fun _ n acc => (n + acc)%nat) 0%nat category_counts.

(** The category of a record: its two scores, classified. *)
Definition classify (tag_func : list string → string → result spec_float)
    (min_score : spec_float) (line1 : list string) : result string :=
  AS1 ← tag_func line1 "AS";
  XS1 ← tag_func line1 "XS";
  get_mapping_state AS1 XS1 min_score.

Definition classified (tag_func : list string → string → result spec_float)
    (min_score : spec_float) (line1 : list string) (state : string) : Prop :=
  classify tag_func min_score line1 = Return state.

(** The file bound to a category, if any. *)
Definition binding (primary_specific primary_multi unassigned : option handle)
    (state : string) : option handle :=
  if bool_decide (state = "primary_specific") then primary_specific
  else if bool_decide (state = "primary_multi") then primary_multi
  else if bool_decide (state = "unassigned") then unassigned
  else None.

(** What a record of a given category adds to the output: its fields joined
    by tabs and ended by a line feed, on the file bound to the category. *)
Definition routed (primary_specific primary_multi unassigned : option handle)
    (line1 : list string) (state : string) : list (handle * string) :=
  match binding primary_specific primary_multi unassigned state with
  | Some f => [(f, Str.join Str.TAB line1 +:+ Str.LF)]
  | None => []
  end.

(** The counter after the records of the given categories, from the empty
    counter, and the output of a run on records of the given categories. *)
Definition tally (m : gmap string nat) (states : list string)
  : gmap string nat :=
  foldl (fun m state => increment state m) m states.

Definition output_of (primary_specific primary_multi unassigned : option handle)
    (readpairs : list (list string)) (states : list string)
  : list (handle * string) :=
  concat (zip_with (routed primary_specific primary_multi unassigned)
            readpairs states).

(** Two records for the worked examples: eleven mandatory fields and the
    score tags; the first has a best score above its second-best score, the
    second has the two equal. *)
Definition mandatory : list string :=
  ["read1"; "0"; "chr1"; "100"; "42"; "4M"; "*"; "0"; "0"; "ACGT"; "IIII"].

Definition record_specific : list string :=
  mandatory ++ ["AS:i:-10"; "XS:i:-20"].

Definition record_multi : list string :=
  mandatory ++ ["AS:i:-10"; "XS:i:-10"].

(** A record without score tags, one whose two scores are both zero and one
    whose best score is written [nan]. *)
Definition record_untagged : list string := mandatory.

Definition record_zero_tie : list string :=
  mandatory ++ ["AS:i:0"; "XS:i:0"].

Definition record_nan : list string :=
  mandatory ++ ["AS:f:nan"; "XS:i:-20"].

(** The category of a record with the extractor of the program and the
    default threshold. *)
Definition category (line1 : list string) : result string :=
  classify (get_tag float_of_literal) default_min_score line1.

(** Header lines for the worked examples. *)
Definition hd_line : string := "@HD" +:+ Str.TAB +:+ "VN:1.0".

Definition bowtie_line : string :=
  "@PG" +:+ Str.TAB +:+ "ID:bowtie2" +:+ Str.TAB +:+ "PN:bowtie2".

(** ** Facts on the float comparisons *)

Section FloatFacts.

Implicit Types a b t : spec_float.

Lemma SFcompare_antisym a b :
    SFcompare b a = CompOpp <$> SFcompare a b.
Proof.
    destruct a as [sa|sa| |sa ma ea], b as [sb|sb| |sb mb eb]; simpl;
      try destruct sa; try destruct sb; simpl; try reflexivity.
    - rewrite (Z.compare_antisym ea eb).
      destruct (ea ?= eb); simpl; try reflexivity.
      rewrite (Pos.compare_cont_antisym ma mb Eq). simpl.
      by destruct (Pos.compare_cont Eq ma mb).
    - rewrite (Z.compare_antisym ea eb).
      destruct (ea ?= eb); simpl; try reflexivity.
      by rewrite (Pos.compare_cont_antisym ma mb Eq).
Qed.

Lemma gt_not_le a t : Float.gt a t = true → Float.le a t = false.
Proof.
    unfold Float.gt, Float.le, SFltb, SFleb.
    rewrite (SFcompare_antisym a t).
    by destruct (SFcompare a t) as [[]|].
Qed.

Lemma le_not_gt a b : Float.le a b = true → Float.gt a b = false.
Proof.
    unfold Float.gt, Float.le, SFltb, SFleb.
    rewrite (SFcompare_antisym a b).
    by destruct (SFcompare a b) as [[]|].
Qed.

Lemma ge_not_gt a b : Float.ge b a = true → Float.gt a b = false.
Proof. apply le_not_gt. Qed.

Lemma lt_gt a b : Float.lt b a = Float.gt a b.
Proof. reflexivity. Qed.

Lemma gt_above_neg_inf a t :
    Float.gt a t = true → Float.gt a Float.neg_inf = true.
Proof.
    unfold Float.gt, SFltb.
    destruct a as [sa|[]| |sa ma ea], t as [st|[]| |st mt et]; simpl;
      try done; by destruct sa.
Qed.

Lemma truth_neg_inf : Float.truth Float.neg_inf = true.
Proof. reflexivity. Qed.

Lemma truth_is_zero a : Float.truth a = negb (Float.is_zero a).
Proof. by destruct a as [[]|[]| |[] ? ?]. Qed.

Lemma compare_total a t :
    Float.is_nan a = false → Float.is_nan t = false →
    Float.le a t = true ∨ Float.gt a t = true.
Proof.
    intros Ha Ht. unfold Float.le, Float.gt, SFleb, SFltb.
    rewrite (SFcompare_antisym a t).
    destruct a as [sa|sa| |sa ma ea], t as [st|st| |st mt et];
      try discriminate; simpl;
      try destruct sa; try destruct st; simpl; auto;
      destruct (ea ?= et); simpl; auto;
      destruct (Pos.compare_cont Eq ma mt); simpl; auto.
Qed.

Lemma compare_nan a t :
    Float.is_nan a = true ∨ Float.is_nan t = true →
    Float.le a t = false ∧ Float.gt a t = false.
Proof.
    unfold Float.le, Float.gt, SFleb, SFltb.
    intros [H|H]; destruct a, t; try discriminate; auto.
Qed.

End FloatFacts.

(** ** The classifier: what it returns *)

Section Classifier.

Implicit Types a b t : spec_float.

  (** Above the threshold, a second score that is a zero is read as a
      missing one, whatever the best score is. *)
Lemma get_mapping_state_zero_second a b t :
    Float.gt a t = true → Float.is_zero b = true →
    get_mapping_state a b t = Return "primary_specific".
Proof.
    intros Hgt Hz. unfold get_mapping_state.
    rewrite (gt_not_le _ _ Hgt), Hgt, truth_is_zero, Hz. reflexivity.
Qed.

  (** Above the threshold, a second score that is not a zero and is at
      least the best score gives [primary_multi]. *)
Lemma get_mapping_state_multi a b t :
    Float.gt a t = true → Float.ge b a = true → Float.is_zero b = false →
    get_mapping_state a b t = Return "primary_multi".
Proof.
    intros Hgt Hge Hz. unfold get_mapping_state.
    rewrite (gt_not_le _ _ Hgt), Hgt, truth_is_zero, Hz, (ge_not_gt _ _ Hge).
    reflexivity.
Qed.

  (** A NaN as best score or as threshold fails both tests and reaches the
      last branch. *)
Lemma get_mapping_state_nan a b t :
    Float.is_nan a = true ∨ Float.is_nan t = true →
    get_mapping_state a b t = Raise (NameError "AS2").
Proof.
    intros H. unfold get_mapping_state.
    destruct (compare_nan _ _ H) as [-> ->]. reflexivity.
Qed.

End Classifier.

(** C1, at the input where the program departs from it: with best and
    second-best score both 0.0 and the default threshold, the best score is
    above the threshold and the second-best is at least the best, and
    [get_mapping_state] answers ['primary_specific'], not
    ['primary_multi']: [not XS1] holds for a second score of zero. *)
Theorem get_mapping_state_tie_at_zero :
  Float.gt Float.zero default_min_score = true
  ∧ Float.ge Float.zero Float.zero = true
  ∧ get_mapping_state Float.zero Float.zero default_min_score
    = Return "primary_specific".
Proof. split; [|split]; reflexivity. Qed.

(** C2: for every score [a] above the threshold [t], when the second-best
    score is absent (negative infinity) or strictly less than [a],
    [get_mapping_state a b t] returns ['primary_specific']. *)
Theorem get_mapping_state_specific (a b t : spec_float) :
  Float.gt a t = true →
  b = Float.neg_inf ∨ Float.lt b a = true →
  get_mapping_state a b t = Return "primary_specific".
Proof.
  intros Hgt Hb. unfold get_mapping_state.
  rewrite (gt_not_le _ _ Hgt), Hgt.
  assert (Float.gt a b = true) as ->.
  { destruct Hb as [->|Hlt]; [by eapply gt_above_neg_inf | by rewrite <- lt_gt]. }
  by rewrite orb_true_r.
Qed.

Lemma get_mapping_state_specific_witness :
  Float.gt (Float.of_Z (-10)) Float.neg_inf = true
  ∧ Float.lt (Float.of_Z (-20)) (Float.of_Z (-10)) = true
  ∧ get_mapping_state (Float.of_Z (-10)) (Float.of_Z (-20)) Float.neg_inf
    = Return "primary_specific".
Proof.
  split; [reflexivity|]. split; [reflexivity|].
  apply (get_mapping_state_specific (Float.of_Z (-10)) (Float.of_Z (-20))
           Float.neg_inf); [reflexivity | right; reflexivity].
Defined.

(** C3: for every pair of scores [a], [b] and every threshold [t] with
    [a <= t], [get_mapping_state a b t] returns ['unassigned'], whatever [b]
    is; a score equal to the threshold is rejected too. *)
Theorem get_mapping_state_unassigned (a b t : spec_float) :
  Float.le a t = true →
  get_mapping_state a b t = Return "unassigned".
Proof. intros Hle. unfold get_mapping_state. by rewrite Hle. Qed.

Lemma get_mapping_state_unassigned_witness :
  Float.le (Float.of_Z 7) (Float.of_Z 7) = true
  ∧ get_mapping_state (Float.of_Z 7) (Float.of_Z 3) (Float.of_Z 7)
    = Return "unassigned".
Proof.
  split; [reflexivity|].
  apply (get_mapping_state_unassigned (Float.of_Z 7) (Float.of_Z 3)
           (Float.of_Z 7)); reflexivity.
Defined.

(** C9 fails as stated: with a NaN as best score no category is returned,
    the last branch is reached and the call raises. *)
Lemma get_mapping_state_nan_raises :
  get_mapping_state Float.nan Float.zero default_min_score
    = Raise (NameError "AS2")
  ∧ ∀ state, get_mapping_state Float.nan Float.zero default_min_score
             ≠ Return state.
Proof. split; [reflexivity | discriminate]. Qed.

(** C9, amended: for every pair of scores and every threshold where neither
    the best score nor the threshold is a NaN, [get_mapping_state] returns
    one of ['unassigned'], ['primary_specific'], ['primary_multi'] and its
    last branch is not reached. *)
Theorem get_mapping_state_total (a b t : spec_float) :
  Float.is_nan a = false → Float.is_nan t = false →
  ∃ state, state ∈ categories ∧ get_mapping_state a b t = Return state.
Proof.
  intros Ha Ht. unfold get_mapping_state, categories.
  destruct (compare_total a t Ha Ht) as [Hle|Hgt].
  - rewrite Hle. exists "unassigned". split; [set_solver | done].
  - rewrite (gt_not_le _ _ Hgt), Hgt.
    destruct (negb (Float.truth b) || Float.gt a b);
      eexists; (split; [|reflexivity]); set_solver.
Qed.

Lemma get_mapping_state_total_witness :
  ∃ state, state ∈ categories
    ∧ get_mapping_state (Float.of_Z 5) Float.nan Float.neg_inf = Return state.
Proof.
  apply (get_mapping_state_total (Float.of_Z 5) Float.nan Float.neg_inf);
    reflexivity.
Defined.

(** ** Strings: the executable tests against their meaning *)

Section Strings.

Implicit Types s p v : string.

Lemma append_nil_l s : "" +:+ s = s.
Proof. reflexivity. Qed.

Lemma append_cons c s p : String c s +:+ p = String c (s +:+ p).
Proof. reflexivity. Qed.

Lemma append_nil_r s : s +:+ "" = s.
Proof. induction s as [|c s IH]; [done|]. by rewrite append_cons, IH. Qed.

Lemma append_assoc s p v : (s +:+ p) +:+ v = s +:+ p +:+ v.
Proof.
  induction s as [|c s IH]; [done|]. by rewrite !append_cons, IH.
Qed.

Lemma startswith_spec p s :
  Str.startswith p s = true ↔ ∃ post, s = p +:+ post.
Proof.
  revert s. induction p as [|a p IH]; intros s; simpl.
  - split; [intros _; by exists s | done].
  - destruct s as [|b s].
    + split; [done | intros [post H]; by rewrite append_cons in H].
    + rewrite andb_true_iff, bool_decide_eq_true, IH. split.
      * intros [-> [post ->]]. by exists post.
      * intros [post H]. rewrite append_cons in H.
        injection H as -> ->. eauto.
Qed.

Lemma contains_spec sub s : Str.contains sub s = true ↔ substring sub s.
Proof.
  unfold substring. induction s as [|c s IH]; simpl.
  - rewrite orb_false_r, startswith_spec. split.
    + intros [post H]. by exists "", post.
    + intros [[|? pre] [post H]]; [by exists post | done].
  - rewrite orb_true_iff, startswith_spec, IH. split.
    + intros [[post H]|(pre & post & H)].
      * by exists "", post.
      * exists (String c pre), post. by rewrite append_cons, H.
    + intros ([|a pre] & post & H).
      * left. by exists post.
      * right. rewrite append_cons in H. injection H as -> ->. eauto.
Qed.

Lemma contains_false sub s : Str.contains sub s = false ↔ ¬ substring sub s.
Proof. rewrite <- contains_spec. by destruct (Str.contains sub s). Qed.

Lemma char_in_cons sep c s : char_in sep (String c s) ↔ c = sep ∨ char_in sep s.
Proof.
  unfold char_in. split.
  - intros ([|a pre] & post & H).
    + left. rewrite append_nil_l in H. by injection H.
    + right. rewrite append_cons in H. injection H as -> ->. eauto.
  - intros [->|(pre & post & ->)].
    + by exists "", s.
    + by exists (String c pre), post.
Qed.

Lemma char_in_nil sep : ¬ char_in sep "".
Proof. by intros ([|a pre] & post & H). Qed.

Lemma split_nonempty sep s : Str.split sep s ≠ [].
Proof.
  destruct s as [|c s]; simpl; [done|].
  case_bool_decide; [done|]. by destruct (Str.split sep s).
Qed.

Lemma split_no_sep sep s : ¬ char_in sep s → Str.split sep s = [s].
Proof.
  induction s as [|c s IH]; intros H; simpl; [done|].
  rewrite char_in_cons in H.
  case_bool_decide; [tauto|]. rewrite IH; [done | tauto].
Qed.

Lemma split_app_sep sep p v :
  Str.split sep (p +:+ String sep v) = Str.split sep p ++ Str.split sep v.
Proof.
  induction p as [|c p IH].
  - rewrite append_nil_l. simpl. by rewrite bool_decide_eq_true_2.
  - rewrite append_cons. simpl. rewrite IH.
    case_bool_decide; [done|].
    pose proof (split_nonempty sep p).
    by destruct (Str.split sep p).
Qed.

(** [s.split(sep)[-1]] is what follows the last [sep] of [s]. *)
Lemma split_last sep s v :
  after_last sep s v → item_last (Str.split sep s) = Return v.
Proof.
  intros [Hv [->|[pre ->]]]; unfold item_last.
  - by rewrite (split_no_sep _ _ Hv).
  - by rewrite split_app_sep, (split_no_sep _ _ Hv), last_snoc.
Qed.

Lemma after_last_exists sep s : ∃ v, after_last sep s v.
Proof.
  unfold after_last. induction s as [|c s (v & Hv & IH)].
  - exists "". split; [apply char_in_nil | by left].
  - destruct IH as [->|[pre ->]].
    + destruct (decide (c = sep)) as [->|Hc].
      * exists v. split; [done|]. right. by exists "".
      * exists (String c v). split; [|by left].
        rewrite char_in_cons. tauto.
    + exists v. split; [done|]. right. by exists (String c pre).
Qed.

End Strings.

(** ** The tag extractor: which fields decide *)

Section TagList.

Context {A : Type} (f : A → bool).

Lemma filter_none (l : list A) :
  (∀ i x, l !! i = Some x → f x = false) → List.filter f l = [].
Proof.
  induction l as [|y l IH]; intros H; simpl; [done|].
  rewrite (H 0%nat y eq_refl). apply IH. intros i x. apply (H (S i)).
Qed.

Lemma filter_middle (l : list A) i x :
  l !! i = Some x → f x = true →
  List.filter f l
  = List.filter f (take i l) ++ x :: List.filter f (drop (S i) l).
Proof.
  intros Hi Hx. rewrite <- (take_drop_middle l i x Hi) at 1.
  rewrite List.filter_app. simpl. by rewrite Hx.
Qed.

Lemma filter_only (l : list A) i x :
  l !! i = Some x → f x = true →
  (∀ j y, l !! j = Some y → f y = true → j = i) →
  List.filter f l = [x].
Proof.
  intros Hi Hx Hu. rewrite (filter_middle l i x Hi Hx).
  rewrite !filter_none; [done| |].
  - intros j y Hj. rewrite lookup_drop in Hj.
    destruct (f y) eqn:Hy; [|done]. specialize (Hu _ _ Hj Hy). lia.
  - intros j y Hj. destruct (f y) eqn:Hy; [|done].
    apply lookup_take_Some in Hj as [Hj ?]. specialize (Hu _ _ Hj Hy). lia.
Qed.

Lemma filter_two (l : list A) i j x y :
  (i < j)%nat → l !! i = Some x → l !! j = Some y →
  f x = true → f y = true →
  (1 < length (List.filter f l))%nat.
Proof.
  intros Hij Hi Hj Hx Hy. rewrite (filter_middle l i x Hi Hx).
  assert (drop (S i) l !! (j - S i)%nat = Some y) as Hj'.
  { rewrite lookup_drop. rewrite <- Hj. f_equal. lia. }
  rewrite (filter_middle _ _ y Hj' Hy).
  rewrite !length_app. simpl. rewrite length_app. simpl. lia.
Qed.

End TagList.

(** C4: [get_tag] looks at the fields from index 11 on only, testing each
    for the tag name as a substring.  When no such field contains the name
    the result is negative infinity; when exactly one does, the result is
    the conversion to a float of what follows its last [':']; when two of
    them do, the call raises the [ValueError] on multiple values.  Two
    records that agree from index 11 on have the same outcome. *)
Theorem get_tag_optional_fields (float : string → result spec_float)
    (sam_line : list string) (tag : string) :
  ((∀ i x, (11 ≤ i)%nat → sam_line !! i = Some x → ¬ substring tag x) →
   get_tag float sam_line tag = Return Float.neg_inf)
  ∧ (∀ i x v,
       (11 ≤ i)%nat → sam_line !! i = Some x → substring tag x →
       (∀ j y, (11 ≤ j)%nat → sam_line !! j = Some y → substring tag y →
               j = i) →
       after_last ":" x v →
       get_tag float sam_line tag = float v)
  ∧ (∀ i j x y,
       (11 ≤ i)%nat → (i < j)%nat →
       sam_line !! i = Some x → sam_line !! j = Some y →
       substring tag x → substring tag y →
       get_tag float sam_line tag
       = Raise (ValueError (MultipleValues tag sam_line)))
  ∧ (∀ sam_line',
       drop 11 sam_line' = drop 11 sam_line →
       returned (get_tag float sam_line' tag)
       = returned (get_tag float sam_line tag)
       ∧ raises (get_tag float sam_line' tag)
         = raises (get_tag float sam_line tag)).
Proof.
  split; [|split; [|split]].
  - intros Hno. unfold get_tag.
    rewrite filter_none; [done|].
    intros k x Hk. rewrite lookup_drop in Hk.
    apply contains_false. apply (Hno (11 + k)%nat); [lia | done].
  - intros i x v Hi Hx Hsub Huniq Hv. unfold get_tag.
    rewrite (filter_only _ _ (i - 11)%nat x).
    + simpl. by rewrite (split_last _ _ _ Hv).
    + rewrite lookup_drop, <- Hx. f_equal. lia.
    + by apply contains_spec.
    + intros k y Hk Hy. rewrite lookup_drop in Hk.
      apply contains_spec in Hy.
      assert (11 + k = i)%nat by (apply (Huniq _ y); [lia|done..]). lia.
  - intros i j x y Hi Hij Hx Hy Hsx Hsy. unfold get_tag.
    pose proof (filter_two (Str.contains tag) (drop 11 sam_line)
                  (i - 11)%nat (j - 11)%nat x y) as Hlen.
    rewrite !lookup_drop in Hlen.
    replace (11 + (i - 11))%nat with i in Hlen by lia.
    replace (11 + (j - 11))%nat with j in Hlen by lia.
    apply contains_spec in Hsx, Hsy.
    specialize (Hlen ltac:(lia) Hx Hy Hsx Hsy).
    destruct (List.filter _ _) as [|z l]; [simpl in Hlen; lia|].
    rewrite bool_decide_eq_false_2 by done.
    by rewrite bool_decide_eq_true_2.
  - intros sam_line' Heq. unfold get_tag. rewrite Heq.
    repeat case_bool_decide; done.
Qed.

Lemma get_tag_optional_fields_witness :
  get_tag float_of_literal
    (replicate 11 "f" ++ ["AS:i:-10"; "XS:i:-20"]) "AS"
  = Return (Float.of_Z (-10)).
Proof.
  pose proof (get_tag_optional_fields float_of_literal
                (replicate 11 "f" ++ ["AS:i:-10"; "XS:i:-20"]) "AS")
    as (_ & Hone & _).
  rewrite (Hone 11%nat "AS:i:-10" "-10").
  - reflexivity.
  - lia.
  - reflexivity.
  - by exists "", ":i:-10".
  - intros j y Hj Hy Hsub. apply contains_spec in Hsub.
    do 11 (destruct j as [|j]; [lia|]).
    destruct j as [|j]; [done|].
    destruct j as [|j]; [by simplify_eq/=|]. done.
  - split.
    + rewrite !char_in_cons. intros [?|[?|[?|H]]]; try done.
      by apply char_in_nil in H.
    + right. by exists "AS:i".
Defined.

(** ** The counter *)

Section Counter.

Implicit Types (m : gmap string nat) (c state : string).

Lemma count_increment_same m state :
  count (increment state m) state = S (count m state).
Proof. unfold count, increment. by rewrite lookup_insert_eq. Qed.

Lemma count_increment_other m state c :
  c ≠ state → count (increment state m) c = count m c.
Proof. intros H. unfold count, increment. by rewrite lookup_insert_ne. Qed.

Lemma total_empty : total ∅ = 0%nat.
Proof. apply map_fold_empty. Qed.

Lemma total_insert_fresh m c n :
  m !! c = None → total (<[c := n]> m) = (n + total m)%nat.
Proof.
  intros H. unfold total. rewrite map_fold_insert_L; [done| |done].
  intros. lia.
Qed.

Lemma total_increment m state : total (increment state m) = S (total m).
Proof.
  unfold increment, count. destruct (m !! state) as [n|] eqn:H; simpl.
  - rewrite <- (insert_delete_id m state n H) at 2.
    rewrite <- insert_delete_eq.
    rewrite !total_insert_fresh by apply lookup_delete_eq. lia.
  - by rewrite total_insert_fresh.
Qed.

Lemma total_tally m states :
  total (tally m states) = (total m + length states)%nat.
Proof.
  revert m. induction states as [|s states IH]; intros m; simpl; [lia|].
  rewrite IH, total_increment. lia.
Qed.

Lemma count_tally m states c :
  count (tally m states) c
  = (count m c + length (filter (fun s => s = c) states))%nat.
Proof.
  revert m. induction states as [|s states IH]; intros m; simpl; [lia|].
  rewrite IH, filter_cons. destruct (decide (s = c)) as [->|Hne].
  - rewrite count_increment_same. simpl. lia.
  - by rewrite count_increment_other.
Qed.

Lemma tally_snoc m states state :
  tally m (states ++ [state]) = increment state (tally m states).
Proof. unfold tally. by rewrite foldl_app. Qed.

End Counter.

(** ** The main loop: one record, then all of them *)

Section Loop.

Variables (primary_specific primary_multi unassigned : option handle).
Variable min_score : spec_float.
Variable tag_func : list string → string → result spec_float.

Local Abbreviation classified := (classified tag_func min_score).

Lemma get_mapping_state_category a b t state :
  get_mapping_state a b t = Return state → state ∈ categories.
Proof.
  unfold get_mapping_state, categories.
  repeat case_match; intros; simplify_eq; set_solver.
Qed.

Lemma classify_category line1 state :
  classified line1 state → state ∈ categories.
Proof.
  unfold classified, classify.
  destruct (tag_func line1 "AS"); [|done].
  destruct (tag_func line1 "XS"); [|done]. simpl.
  apply get_mapping_state_category.
Qed.

(** A record that classifies is counted once in its category and written
    to the file bound to that category, if there is one. *)
Lemma loop_body_classified st line1 state :
  classified line1 state →
  loop_body primary_specific primary_multi unassigned min_score tag_func
    st line1
  = Return {| category_counts := increment state (category_counts st);
              written := written st
                ++ routed primary_specific primary_multi unassigned
                     line1 state |}.
Proof.
  intros H. pose proof (classify_category _ _ H) as Hcat.
  unfold classified, classify in H. unfold loop_body.
  destruct (tag_func line1 "AS") as [AS1|]; [|done].
  destruct (tag_func line1 "XS") as [XS1|]; [|done]. simpl in *.
  rewrite H. simpl. unfold routed, binding, print_if, print.
  unfold categories in Hcat.
  apply elem_of_cons in Hcat as [->|Hcat];
    [|apply elem_of_cons in Hcat as [->|Hcat];
      [|apply list_elem_of_singleton in Hcat as ->]]; simpl.
  - destruct unassigned; simpl; by rewrite ?app_nil_r.
  - destruct primary_specific; simpl; by rewrite ?app_nil_r.
  - destruct primary_multi; simpl; by rewrite ?app_nil_r.
Qed.

(** A record that does not classify ends the loop with the exception of
    the classification. *)
Lemma loop_body_raises st line1 e :
  classify tag_func min_score line1 = Raise e →
  loop_body primary_specific primary_multi unassigned min_score tag_func
    st line1 = Raise e.
Proof.
  unfold classify, loop_body.
  destruct (tag_func line1 "AS"); simpl; [|by intros [= ->]].
  destruct (tag_func line1 "XS"); simpl; [|by intros [= ->]].
  by intros ->.
Qed.

Lemma loop_classified readpairs states st :
  Forall2 classified readpairs states →
  loop primary_specific primary_multi unassigned min_score tag_func
    readpairs st
  = ({| category_counts := tally (category_counts st) states;
        written := written st
          ++ output_of primary_specific primary_multi unassigned
               readpairs states |}, None).
Proof.
  intros H. revert st. induction H as [|line1 state rest states H _ IH];
    intros st; simpl.
  - unfold output_of. simpl. rewrite app_nil_r. by destruct st.
  - rewrite (loop_body_classified _ _ _ H), IH. simpl.
    unfold output_of. simpl. by rewrite app_assoc.
Qed.

Lemma loop_returned readpairs st st' :
  loop primary_specific primary_multi unassigned min_score tag_func
    readpairs st = (st', None) →
  ∃ states, Forall2 classified readpairs states.
Proof.
  revert st. induction readpairs as [|line1 rest IH]; intros st; simpl.
  - exists []. constructor.
  - destruct (classify tag_func min_score line1) as [state|e] eqn:Hc.
    + rewrite (loop_body_classified _ _ _ Hc).
      intros [states Hs]%IH. exists (state :: states). by constructor.
    + by rewrite (loop_body_raises _ _ _ Hc).
Qed.

Lemma classified_all readpairs :
  Forall (fun line1 => raises (classify tag_func min_score line1) = false)
    readpairs →
  ∃ states, Forall2 classified readpairs states.
Proof.
  induction 1 as [|line1 rest H _ [states IH]].
  - exists []. constructor.
  - destruct (classify tag_func min_score line1) as [state|] eqn:Hc; [|done].
    exists (state :: states). by constructor.
Qed.

Lemma main_single_end_classified readpairs states :
  Forall2 classified readpairs states →
  main_single_end readpairs primary_specific primary_multi unassigned
    min_score tag_func
  = (Return (tally ∅ states),
     output_of primary_specific primary_multi unassigned readpairs states).
Proof.
  intros H. unfold main_single_end. by rewrite (loop_classified _ _ _ H).
Qed.

Lemma main_single_end_returned readpairs counts :
  (main_single_end readpairs primary_specific primary_multi unassigned
     min_score tag_func).1 = Return counts →
  ∃ states, Forall2 classified readpairs states.
Proof.
  unfold main_single_end.
  destruct (loop _ _ _ _ _ readpairs start) as [st [e|]] eqn:Hl; [done|].
  intros _. by eapply loop_returned.
Qed.

End Loop.

(** C5: on [N] records the counter returned by [main_single_end] sums to
    [N].  The call returns as soon as every record classifies; and when it
    returns, after each record [k] the counter of one category is one more
    than before that record, the other counters are as before, the counter
    summed [k] before the record, and no counter ever decreases up to the
    counter returned. *)
Theorem main_single_end_counts (readpairs : list (list string))
    (primary_specific primary_multi unassigned : option handle)
    (min_score : spec_float)
    (tag_func : list string → string → result spec_float) :
  let run_on l :=
    (main_single_end l primary_specific primary_multi unassigned min_score
       tag_func).1 in
  (Forall (fun line1 => raises (classify tag_func min_score line1) = false)
     readpairs →
   ∃ counts, run_on readpairs = Return counts)
  ∧ ∀ counts, run_on readpairs = Return counts →
      total counts = length readpairs
      ∧ ∀ k, (k < length readpairs)%nat →
          ∃ before after state,
            run_on (take k readpairs) = Return before
            ∧ run_on (take (S k) readpairs) = Return after
            ∧ total before = k
            ∧ count after state = S (count before state)
            ∧ (∀ c, c ≠ state → count after c = count before c)
            ∧ ∀ c, (count before c ≤ count after c)%nat
                   ∧ (count after c ≤ count counts c)%nat.
Proof.
  intros run_on. subst run_on. simpl. split.
  - intros [states Hs]%classified_all.
    rewrite (main_single_end_classified _ _ _ _ _ _ _ Hs). eauto.
  - intros counts Hret.
    destruct (main_single_end_returned _ _ _ _ _ _ _ Hret) as [states Hs].
    rewrite (main_single_end_classified _ _ _ _ _ _ _ Hs) in Hret.
    simpl in Hret. injection Hret as <-.
    pose proof (Forall2_length _ _ _ Hs) as Hlen.
    split; [rewrite total_tally, total_empty; lia|].
    intros k Hk.
    destruct (lookup_lt_is_Some_2 states k) as [state Hstate]; [lia|].
    exists (tally ∅ (take k states)), (tally ∅ (take (S k) states)), state.
    rewrite (main_single_end_classified _ _ _ _ _ _ _
               (Forall2_take _ _ _ k Hs)).
    rewrite (main_single_end_classified _ _ _ _ _ _ _
               (Forall2_take _ _ _ (S k) Hs)).
    rewrite (take_S_r _ _ _ Hstate), tally_snoc.
    split; [done|]. split; [done|].
    split; [rewrite total_tally, total_empty, length_take; lia|].
    split; [apply count_increment_same|].
    split; [intros c Hc; by apply count_increment_other|].
    intros c. split.
    + destruct (decide (c = state)) as [->|Hc].
      * rewrite count_increment_same. lia.
      * by rewrite count_increment_other.
    + rewrite <- tally_snoc, <- (take_S_r _ _ _ Hstate).
      rewrite <- (take_drop (S k) states) at 2.
      rewrite !count_tally, filter_app, length_app. lia.
Qed.

Lemma main_single_end_counts_witness :
  (main_single_end [record_specific; record_multi] (Some 1%nat) None None
     default_min_score (get_tag float_of_literal)).1
  = Return (tally ∅ ["primary_specific"; "primary_multi"])
  ∧ total (tally ∅ ["primary_specific"; "primary_multi"]) = 2%nat.
Proof.
  assert ((main_single_end [record_specific; record_multi] (Some 1%nat)
             None None default_min_score (get_tag float_of_literal)).1
          = Return (tally ∅ ["primary_specific"; "primary_multi"])) as Hrun.
  { vm_compute. reflexivity. }
  split; [exact Hrun|].
  pose proof (main_single_end_counts [record_specific; record_multi]
                (Some 1%nat) None None default_min_score
                (get_tag float_of_literal)) as [_ H].
  apply (H _ Hrun).
Defined.

(** C6: when [main_single_end] returns, every record was classified; what
    was printed is, record after record in the order of the input, one line
    for each record whose category has a file bound to it, on that file,
    made of the fields joined by single tabs and ended by a line feed, and
    nothing for a record whose category has no file; every record is
    counted in its category whether it was printed or not. *)
Theorem main_single_end_output (readpairs : list (list string))
    (primary_specific primary_multi unassigned : option handle)
    (min_score : spec_float)
    (tag_func : list string → string → result spec_float)
    (counts : gmap string nat) (out : list (handle * string)) :
  main_single_end readpairs primary_specific primary_multi unassigned
    min_score tag_func = (Return counts, out) →
  ∃ states,
    Forall2 (fun line1 state =>
               classify tag_func min_score line1 = Return state)
      readpairs states
    ∧ out = concat (zip_with
              (fun line1 state =>
                 match binding primary_specific primary_multi unassigned
                         state with
                 | Some f => [(f, Str.join Str.TAB line1 +:+ Str.LF)]
                 | None => []
                 end) readpairs states)
    ∧ ∀ c, count counts c = length (filter (fun s => s = c) states).
Proof.
  intros Hret.
  destruct (main_single_end_returned primary_specific primary_multi
              unassigned min_score tag_func readpairs counts) as [states Hs].
  { by rewrite Hret. }
  exists states. split; [done|].
  rewrite (main_single_end_classified _ _ _ _ _ _ _ Hs) in Hret.
  injection Hret as <- <-. split; [done|].
  intros c. by rewrite count_tally.
Qed.

Lemma main_single_end_output_witness :
  ∃ states,
    Forall2 (fun line1 state =>
               classify (get_tag float_of_literal) default_min_score line1
               = Return state)
      [record_specific; record_multi] states
    ∧ [(1%nat, Str.join Str.TAB record_specific +:+ Str.LF)]
      = concat (zip_with
          (fun line1 state =>
             match binding (Some 1%nat) None None state with
             | Some f => [(f, Str.join Str.TAB line1 +:+ Str.LF)]
             | None => []
             end) [record_specific; record_multi] states)
    ∧ ∀ c, count (tally ∅ ["primary_specific"; "primary_multi"]) c
           = length (filter (fun s => s = c) states).
Proof.
  apply (main_single_end_output [record_specific; record_multi]
           (Some 1%nat) None None default_min_score
           (get_tag float_of_literal)).
  vm_compute. reflexivity.
Defined.

(** ** The header annotator: the test of the marks and the value of PP *)

Section Header.

Implicit Types (h : list string) (x : string).

Lemma comprehension_first_marked h :
  Forall (fun x => ∃ rest, x = String "@" rest) h →
  comprehension Str.first h = Return (replicate (length h) "@"%char).
Proof.
  induction 1 as [|x h [rest ->] _ IH]; simpl; [done|]. by rewrite IH.
Qed.

Lemma comprehension_first_nonempty h :
  Forall (fun x => x ≠ "") h →
  ∃ marks, comprehension Str.first h = Return marks
           ∧ Forall2 (fun x c => ∃ rest, x = String c rest) h marks.
Proof.
  induction 1 as [|x h Hx _ (marks & IH & Hm)]; simpl.
  - exists []. by split.
  - destruct x as [|c rest]; [done|]. simpl. rewrite IH. simpl.
    exists (c :: marks). split; [done|]. constructor; eauto.
Qed.

Lemma comprehension_first_empty h :
  "" ∈ h → comprehension Str.first h = Raise IndexError.
Proof.
  induction h as [|x h IH]; intros Hin; [by apply elem_of_nil in Hin|].
  apply elem_of_cons in Hin as [<-|Hin]; simpl; [done|].
  destruct x; simpl; [done|]. by rewrite IH.
Qed.

Lemma marks_all_at h marks :
  Forall2 (fun x c => ∃ rest, x = String c rest) h marks →
  marks = replicate (length h) "@"%char
  ↔ Forall (fun x => Str.startswith "@" x = true) h.
Proof.
  induction 1 as [|x c h marks [rest ->] _ IH]; simpl.
  - split; [constructor | done].
  - rewrite Forall_cons, <- IH. simpl.
    rewrite andb_true_r, bool_decide_eq_true. split.
    + by intros [= -> ->].
    + by intros [<- ->].
Qed.

(** The header passes the test when every line starts with ['@']. *)
Lemma check_header_marked h :
  Forall (fun x => ∃ rest, x = String "@" rest) h →
  check_header h = Return ().
Proof.
  intros H. unfold check_header. rewrite (comprehension_first_marked _ H).
  simpl. by rewrite bool_decide_eq_true_2.
Qed.

(** An empty line stops the test with an [IndexError], whatever the other
    lines are. *)
Lemma check_header_empty_line h :
  "" ∈ h → check_header h = Raise IndexError.
Proof.
  intros H. unfold check_header. by rewrite (comprehension_first_empty _ H).
Qed.

(** Without empty lines the test raises the [ValueError] on the header
    format exactly when a line does not start with ['@']. *)
Lemma check_header_unmarked h :
  Forall (fun x => x ≠ "") h →
  (check_header h = Raise (ValueError (BadHeader h))
   ↔ Exists (fun x => Str.startswith "@" x = false) h)
  ∧ (check_header h = Return ()
     ↔ Forall (fun x => Str.startswith "@" x = true) h).
Proof.
  intros Hne. unfold check_header.
  destruct (comprehension_first_nonempty _ Hne) as (marks & -> & Hm). simpl.
  pose proof (marks_all_at _ _ Hm) as Hall.
  assert (Exists (fun x => Str.startswith "@" x = false) h
          ↔ ¬ Forall (fun x => Str.startswith "@" x = true) h) as Hex.
  { split.
    - intros HF HT. rewrite Forall_forall in HT.
      apply Exists_exists in HF as (y & Hin & Hy).
      specialize (HT y Hin). congruence.
    - intros HF. apply not_Forall_Exists in HF; [|solve_decision].
      eapply Exists_impl; [exact HF|]. intros x. unfold compose.
      by destruct (Str.startswith "@" x). }
  case_bool_decide as Hd; cbn [negb].
  - apply Hall in Hd as HF. split; split; try done.
    intros HE. by apply Hex in HE.
  - split; split; try done.
    + intros _. apply Hex. by rewrite <- Hall.
    + intros HF. by apply Hall in HF.
Qed.

Lemma filter_first_match {A : Type} (f : A → bool) (l : list A) :
  Exists (fun a => f a = true) l →
  ∃ before a after,
    l = before ++ a :: after
    ∧ Forall (fun b => f b = false) before
    ∧ f a = true
    ∧ item_first (List.filter f l) = Return a.
Proof.
  induction l as [|b l IH]; intros Hex; [by apply Exists_nil in Hex|].
  destruct (f b) eqn:Hb.
  - exists [], b, l. simpl. by rewrite Hb.
  - apply Exists_cons in Hex as [Hex|Hex]; [congruence|].
    destruct (IH Hex) as (before & a & after & -> & Hbefore & Ha & Hf).
    exists (b :: before), a, after. simpl. rewrite Hb.
    split; [done|]. split; [by constructor|]. done.
Qed.

Lemma previous_program_other h last_line :
  last h = Some last_line → Str.take 3 last_line ≠ "@PG" →
  previous_program h = Return "".
Proof.
  intros Hl Hpg. unfold previous_program, item_last. rewrite Hl. simpl.
  by rewrite bool_decide_eq_false_2.
Qed.

Lemma previous_program_pg h last_line :
  last h = Some last_line → Str.take 3 last_line = "@PG" →
  (∃ x, x ∈ Str.split_ws last_line ∧ Str.take 2 x = "ID") →
  ∃ before ident after,
    Str.split_ws last_line = before ++ ident :: after
    ∧ Forall (fun x => Str.take 2 x ≠ "ID") before
    ∧ Str.take 2 ident = "ID"
    ∧ previous_program h
      = Return ("PP" +:+ Str.drop 2 ident +:+ Str.TAB).
Proof.
  intros Hl Hpg (x & Hin & Hx).
  destruct (filter_first_match
              (fun x => bool_decide (Str.take 2 x = "ID"))
              (Str.split_ws last_line))
    as (before & ident & after & Hsplit & Hb & Hi & Hf).
  { apply Exists_exists. exists x. by rewrite bool_decide_eq_true. }
  exists before, ident, after. split; [done|]. split.
  { eapply Forall_impl; [exact Hb|]. simpl. intros y.
    by rewrite bool_decide_eq_false. }
  apply bool_decide_eq_true in Hi. split; [done|].
  unfold previous_program, item_last. rewrite Hl.
  unfold mbind, result_bind.
  rewrite bool_decide_eq_true_2 by done. by rewrite Hf.
Qed.

(** A program line without a piece that starts with [ID] stops the
    function with an [IndexError]; so does an empty header. *)
Lemma previous_program_no_id h last_line :
  last h = Some last_line → Str.take 3 last_line = "@PG" →
  Forall (fun x => Str.take 2 x ≠ "ID") (Str.split_ws last_line) →
  previous_program h = Raise IndexError.
Proof.
  intros Hl Hpg Hno. unfold previous_program, item_last. rewrite Hl.
  unfold mbind, result_bind.
  rewrite bool_decide_eq_true_2 by done.
  rewrite filter_none; [done|].
  intros i x Hi. apply bool_decide_eq_false.
  rewrite Forall_forall in Hno. apply Hno. by eapply list_elem_of_lookup_2.
Qed.

Lemma previous_program_index_error h e :
  previous_program h = Raise e → e = IndexError.
Proof.
  unfold previous_program, item_last.
  destruct (last h) as [last_line|]; unfold mbind, result_bind;
    [|by intros [= <-]].
  case_bool_decide; [|done].
  destruct (List.filter _ _); simpl; [by intros [= <-] | done].
Qed.

Lemma previous_program_empty : previous_program [] = Raise IndexError.
Proof. reflexivity. Qed.

End Header.

(** ** The header annotator: what it returns *)

(** The outcome of [add_pg_tag] from the outcomes of its two steps. *)
Lemma add_pg_tag_steps (h : list string) (comment : option string) (PP : string) :
  check_header h = Return () → previous_program h = Return PP →
  add_pg_tag h comment
  = Return (h ++ pg_line PP ::
              match comment_given comment with
              | Some c => [co_line c]
              | None => []
              end).
Proof.
  intros Hc Hp. unfold add_pg_tag. rewrite Hc, Hp. simpl.
  destruct (comment_given comment); [|done].
  by rewrite <- app_assoc.
Qed.

(** [ValueError] comes from the test of the marks only: without empty
    lines, [add_pg_tag] raises it exactly when a line does not start with
    ['@']. *)
Lemma add_pg_tag_bad_header (h : list string) (comment : option string) :
  Forall (fun x => x ≠ "") h →
  add_pg_tag h comment = Raise (ValueError (BadHeader h))
  ↔ Exists (fun x => Str.startswith "@" x = false) h.
Proof.
  intros Hne. destruct (check_header_unmarked h Hne) as [Hbad Hok].
  rewrite <- Hbad. unfold add_pg_tag.
  destruct (check_header h) as [[]|e] eqn:Hc; simpl;
    [|by split; intros [= ->]].
  split; [|done].
  destruct (previous_program h) as [PP|e] eqn:Hp; simpl.
  - by destruct (comment_given comment).
  - intros [= ->]. by apply previous_program_index_error in Hp.
Qed.

(** C7 fails as stated: with the empty string given as comment, the
    program line is appended and no comment line follows it. *)
Lemma add_pg_tag_empty_comment :
  add_pg_tag [hd_line] (Some "") = Return [hd_line; pg_line ""]
  ∧ ¬ ∃ PP, add_pg_tag [hd_line] (Some "")
            = Return ([hd_line] ++ [pg_line PP; co_line ""]).
Proof. split; [reflexivity | by intros [PP H]]. Qed.

(** When the first white-space separated piece of a program line that
    starts with [ID] is its field [ID:ident], the value of [PP] is
    [PP:ident] and a tab. *)
Lemma previous_program_id_field (h : list string) (last_line ident : string)
    (before after : list string) :
  last h = Some last_line → Str.take 3 last_line = "@PG" →
  Str.split_ws last_line = before ++ ("ID:" +:+ ident) :: after →
  Forall (fun x => Str.take 2 x ≠ "ID") before →
  previous_program h = Return ("PP:" +:+ ident +:+ Str.TAB).
Proof.
  intros Hl Hpg Hsplit Hb. unfold previous_program, item_last. rewrite Hl.
  unfold mbind, result_bind. rewrite bool_decide_eq_true_2 by done.
  rewrite Hsplit, List.filter_app, filter_none.
  - reflexivity.
  - intros i x Hi. apply bool_decide_eq_false.
    rewrite Forall_forall in Hb. apply Hb. by eapply list_elem_of_lookup_2.
Qed.

(** A program line whose command text has a piece starting with [ID]
    before the field [ID:bwa]: the piece is taken for the identifier. *)
Example add_pg_tag_id_in_command :
  add_pg_tag
    ["@PG" +:+ Str.TAB +:+ "PN:bwa" +:+ Str.TAB +:+ "CL:bwa mem IDX.fa r.fq"
       +:+ Str.TAB +:+ "ID:bwa"] None
  = Return
      ["@PG" +:+ Str.TAB +:+ "PN:bwa" +:+ Str.TAB +:+ "CL:bwa mem IDX.fa r.fq"
         +:+ Str.TAB +:+ "ID:bwa";
       pg_line ("PPX.fa" +:+ Str.TAB)].
Proof. reflexivity. Qed.

(** C7, amended: for a well-formed header, that is one that is not empty,
    whose lines all start with ['@'] and whose last line, when it is a
    program line (it starts with [@PG]), has exactly one tab-separated
    field [ID:ident], this field being also the first white-space separated
    piece of the line that starts with [ID]: [add_pg_tag] returns the lines
    of the header, unchanged and in order, then one [@PG] line naming
    Xenomapper and its version, then one [@CO] line with the comment
    exactly when a comment that is not the empty string was given; and
    when the last line of the header is a program line, the appended [@PG]
    line carries the back-reference [PP:ident] built from the [ID] field
    of that line (and it carries no [PP] otherwise). *)
Theorem add_pg_tag_appends (sam_header_list : list string)
    (comment : option string) (last_line ident : string) :
  last sam_header_list = Some last_line →
  Forall (fun x => ∃ rest, x = String "@" rest) sam_header_list →
  (Str.take 3 last_line = "@PG" →
   ("ID:" +:+ ident) ∈ Str.split "009" last_line
   ∧ (∀ x, x ∈ Str.split "009" last_line → Str.take 3 x = "ID:" →
           x = "ID:" +:+ ident)
   ∧ ∃ before after,
       Str.split_ws last_line = before ++ ("ID:" +:+ ident) :: after
       ∧ Forall (fun x => Str.take 2 x ≠ "ID") before) →
  ∃ PP,
    add_pg_tag sam_header_list comment
    = Return (sam_header_list
              ++ ("@PG" +:+ Str.TAB +:+ "ID:Xenomapper" +:+ Str.TAB
                  +:+ "PN:Xenomapper" +:+ Str.TAB +:+ PP +:+ "VN:1.0.1")
              :: match comment with
                 | None => []
                 | Some c =>
                     if decide (c = "") then []
                     else ["@CO" +:+ Str.TAB +:+ c]
                 end)
    ∧ (Str.take 3 last_line ≠ "@PG" → PP = "")
    ∧ (Str.take 3 last_line = "@PG" → PP = "PP:" +:+ ident +:+ Str.TAB).
Proof.
  intros Hlast Hmarks Hid.
  assert (∀ PP, previous_program sam_header_list = Return PP →
    add_pg_tag sam_header_list comment
    = Return (sam_header_list ++ pg_line PP ::
                match comment with
                | None => []
                | Some c => if decide (c = "") then [] else [co_line c]
                end)) as Hret.
  { intros PP HPP.
    rewrite (add_pg_tag_steps _ _ PP (check_header_marked _ Hmarks) HPP).
    by destruct comment as [[|c s]|]. }
  destruct (decide (Str.take 3 last_line = "@PG")) as [Hpg|Hpg].
  - destruct (Hid Hpg) as (_ & _ & before & after & Hsplit & Hb).
    exists ("PP:" +:+ ident +:+ Str.TAB).
    split; [|by split].
    exact (Hret _ (previous_program_id_field _ _ _ _ _ Hlast Hpg Hsplit Hb)).
  - exists "". split; [|by split].
    exact (Hret _ (previous_program_other _ _ Hlast Hpg)).
Qed.

Lemma add_pg_tag_appends_witness :
  add_pg_tag [hd_line; bowtie_line] (Some "species specific reads")
  = Return ([hd_line; bowtie_line]
            ++ [pg_line ("PP:" +:+ "bowtie2" +:+ Str.TAB);
                co_line "species specific reads"]).
Proof.
  destruct (add_pg_tag_appends [hd_line; bowtie_line]
              (Some "species specific reads") bowtie_line "bowtie2")
    as (PP & Hret & _ & HPP).
  - reflexivity.
  - repeat constructor; eexists; reflexivity.
  - assert (Str.split "009" bowtie_line
            = ["@PG"; "ID:" +:+ "bowtie2"; "PN:bowtie2"]) as Hfields
      by reflexivity.
    intros _. rewrite Hfields. split; [|split].
    + rewrite !elem_of_cons. tauto.
    + intros x Hin Hx. rewrite !elem_of_cons in Hin.
      destruct Hin as [->|[->|[->|Hin]]]; try done.
      by apply elem_of_nil in Hin.
    + exists ["@PG"], ["PN:bowtie2"]. split; [reflexivity|].
      by repeat constructor.
  - rewrite (HPP eq_refl) in Hret. exact Hret.
Defined.

(** The same call, evaluated. *)
Example add_pg_tag_after_bowtie :
  add_pg_tag [hd_line; bowtie_line] (Some "species specific reads")
  = Return [hd_line; bowtie_line;
            "@PG" +:+ Str.TAB +:+ "ID:Xenomapper" +:+ Str.TAB
              +:+ "PN:Xenomapper" +:+ Str.TAB +:+ "PP:bowtie2" +:+ Str.TAB
              +:+ "VN:1.0.1";
            "@CO" +:+ Str.TAB +:+ "species specific reads"].
Proof. reflexivity. Qed.

(** C8, at the input where the program departs from it: the second line of
    this header is empty, so it does not begin with ['@'], and the call
    stops with an [IndexError], not with the [ValueError] on the header
    format. *)
Theorem add_pg_tag_empty_line :
  Str.startswith "@" "" = false
  ∧ add_pg_tag [hd_line; ""] None = Raise IndexError
  ∧ ∀ h, add_pg_tag [hd_line; ""] None ≠ Raise (ValueError (BadHeader h)).
Proof. split; [reflexivity|]. split; [reflexivity | discriminate]. Qed.

(** ** The header annotator on list objects *)

Section StoreFacts.

Implicit Types (σ : gmap Store.loc (list string)) (l : Store.loc).

Lemma copy_fresh σ l : σ !! (Store.copy σ l).2 = None.
Proof. unfold Store.copy. simpl. apply not_elem_of_dom, is_fresh. Qed.

Lemma read_copy σ l :
  Store.read (Store.copy σ l).1 (Store.copy σ l).2 = Store.read σ l.
Proof. unfold Store.copy, Store.read. simpl. by rewrite lookup_insert_eq. Qed.

Lemma lookup_copy σ l l0 :
  is_Some (σ !! l0) → (Store.copy σ l).1 !! l0 = σ !! l0.
Proof.
  intros [x Hx]. unfold Store.copy. simpl. rewrite lookup_insert_ne; [done|].
  intros <-. pose proof (copy_fresh σ l) as Hf.
  unfold Store.copy in Hf. simpl in Hf. congruence.
Qed.

Lemma lookup_append_other σ l l0 x :
  l0 ≠ l → Store.append σ l x !! l0 = σ !! l0.
Proof. intros H. unfold Store.append. by rewrite lookup_alter_ne. Qed.

Lemma lookup_append σ l x :
  Store.append σ l x !! l = (fun xs => xs ++ [x]) <$> σ !! l.
Proof. unfold Store.append. by rewrite lookup_alter_eq. Qed.

End StoreFacts.

(** C10: [add_pg_tag] leaves its argument as it was.  When the argument is
    the list object at [l], holding the lines [header], then after the call
    the object at [l] still holds [header], as does every list object that
    existed before the call; a list returned is a new object, different
    from [l], that holds what [add_pg_tag] returns on the lines; and the
    call raises exactly as [add_pg_tag] on the lines does. *)
Theorem add_pg_tag_keeps_argument (σ : gmap Store.loc (list string))
    (l : Store.loc) (header : list string) (comment : option string) :
  σ !! l = Some header →
  let '(σ', r) := Store.add_pg_tag σ l comment in
  σ' !! l = Some header
  ∧ (∀ l0, is_Some (σ !! l0) → σ' !! l0 = σ !! l0)
  ∧ match r with
    | Return new =>
        new ≠ l ∧ σ !! new = None
        ∧ ∃ lines, σ' !! new = Some lines
                   ∧ add_pg_tag header comment = Return lines
    | Raise e => add_pg_tag header comment = Raise e
    end.
Proof.
  intros Hl. unfold Store.add_pg_tag.
  pose proof (copy_fresh σ l) as Hfresh.
  pose proof (read_copy σ l) as Hread.
  pose proof (lookup_copy σ l) as Hkeep.
  destruct (Store.copy σ l) as [σ1 new] eqn:Hcopy. simpl in *.
  assert (Store.read σ l = header) as Hh by (unfold Store.read; by rewrite Hl).
  rewrite Hh in Hread. rewrite Hread.
  assert (new ≠ l) as Hne by (intros ->; congruence).
  assert (σ1 !! new = Some header) as Hnew.
  { unfold Store.copy in Hcopy. injection Hcopy as <- <-.
    rewrite lookup_insert_eq. by rewrite Hh. }
  unfold add_pg_tag.
  destruct (check_header header) as [[]|e]; simpl.
  2: { split; [rewrite Hkeep; eauto|]. split; [done|]. done. }
  destruct (previous_program header) as [PP|e]; simpl.
  2: { split; [rewrite Hkeep; eauto|]. split; [done|]. done. }
  destruct (comment_given comment) as [c|].
  - split; [by rewrite !lookup_append_other, Hkeep by eauto|].
    split.
    { intros l0 Hl0. rewrite !lookup_append_other, Hkeep; [done..| |];
        intros ->; destruct Hl0; congruence. }
    split; [done|]. split; [done|]. eexists. split; [|done].
    by rewrite !lookup_append, Hnew.
  - split; [by rewrite lookup_append_other, Hkeep by eauto|].
    split.
    { intros l0 Hl0. rewrite lookup_append_other, Hkeep; [done..|].
      intros ->; destruct Hl0; congruence. }
    split; [done|]. split; [done|]. eexists. split; [|done].
    by rewrite lookup_append, Hnew.
Qed.

Lemma add_pg_tag_keeps_argument_witness :
  let σ : gmap Store.loc (list string) := {[ 1%positive := [hd_line] ]} in
  let '(σ', r) := Store.add_pg_tag σ 1%positive (Some "reads") in
  σ' !! 1%positive = Some [hd_line]
  ∧ (∀ l0, is_Some (σ !! l0) → σ' !! l0 = σ !! l0)
  ∧ match r with
    | Return new =>
        new ≠ 1%positive ∧ σ !! new = None
        ∧ ∃ lines, σ' !! new = Some lines
                   ∧ add_pg_tag [hd_line] (Some "reads") = Return lines
    | Raise e => add_pg_tag [hd_line] (Some "reads") = Raise e
    end.
Proof.
  apply (add_pg_tag_keeps_argument {[ 1%positive := [hd_line] ]} 1%positive
           [hd_line] (Some "reads")).
  reflexivity.
Defined.

(** ** Worked scenarios *)

Section Scenarios.

(** A best score of -10 over a second-best of -20. *)
Example scenario_specific : category record_specific = Return "primary_specific".
Proof. reflexivity. Qed.

(** Equal scores of -10. *)
Example scenario_multi : category record_multi = Return "primary_multi".
Proof. reflexivity. Qed.

(** No [AS] tag: the best score is negative infinity, which is not above
    the default threshold. *)
Example scenario_untagged : category record_untagged = Return "unassigned".
Proof. reflexivity. Qed.

(** Equal scores of 0: the tie is taken for a unique match. *)
Example scenario_zero_tie :
  category record_zero_tie = Return "primary_specific".
Proof. reflexivity. Qed.

(** A best score that reads [nan]: the extractor returns a NaN and the
    classifier raises. *)
Example scenario_nan :
  get_tag float_of_literal record_nan "AS" = Return Float.nan
  ∧ category record_nan = Raise (NameError "AS2").
Proof. split; reflexivity. Qed.

(** A record that raises ends the run: the records before it stay printed
    and no counter is returned. *)
Example scenario_interrupted :
  main_single_end [record_specific; record_nan; record_multi]
    (Some 1%nat) (Some 2%nat) None default_min_score
    (get_tag float_of_literal)
  = (Raise (NameError "AS2"),
     [(1%nat, Str.join Str.TAB record_specific +:+ Str.LF)]).
Proof. reflexivity. Qed.

(** The three calls of [process_headers] on one header list: each call
    returns its own list and leaves the list of the caller as it was. *)
Example scenario_header_reused :
  let σ0 : gmap Store.loc (list string) := {[ 1%positive := [hd_line] ]} in
  let '(σ1, r1) := Store.add_pg_tag σ0 1%positive (Some "species specific reads") in
  let '(σ2, r2) := Store.add_pg_tag σ1 1%positive (Some "reads that could not be assigned") in
  σ2 !! 1%positive = Some [hd_line]
  ∧ (λ l, σ2 !! l) <$> returned r1
    = Some (Some [hd_line; pg_line ""; co_line "species specific reads"])
  ∧ (λ l, σ2 !! l) <$> returned r2
    = Some (Some [hd_line; pg_line "";
                  co_line "reads that could not be assigned"]).
Proof. vm_compute. done. Qed.

End Scenarios.

(** ** The main loop: interruption, concatenation, the keys of the counter *)

Section LoopMore.

Variables (primary_specific primary_multi unassigned : option handle).
Variable min_score : spec_float.
Variable tag_func : list string → string → result spec_float.

Local Abbreviation classified := (classified tag_func min_score).
Local Abbreviation output :=
  (output_of primary_specific primary_multi unassigned).

Lemma loop_stops before states bad after e st :
  Forall2 classified before states →
  classify tag_func min_score bad = Raise e →
  loop primary_specific primary_multi unassigned min_score tag_func
    (before ++ bad :: after) st
  = ({| category_counts := tally (category_counts st) states;
        written := written st ++ output before states |}, Some e).
Proof.
  intros H Hbad. revert st.
  induction H as [|line1 state rest states H _ IH]; intros st; simpl.
  - rewrite (loop_body_raises _ _ _ _ _ _ _ _ Hbad).
    unfold output_of. simpl. rewrite app_nil_r. by destruct st.
  - rewrite (loop_body_classified _ _ _ _ _ _ _ _ H), IH. simpl.
    unfold output_of. simpl. by rewrite app_assoc.
Qed.

Lemma output_of_app l1 l2 states1 states2 :
  length l1 = length states1 →
  output (l1 ++ l2) (states1 ++ states2)
  = output l1 states1 ++ output l2 states2.
Proof.
  intros Hlen. unfold output_of.
  by rewrite zip_with_app, concat_app.
Qed.

Lemma tally_app m states1 states2 :
  tally m (states1 ++ states2) = tally (tally m states1) states2.
Proof. unfold tally. apply foldl_app. Qed.

Lemma tally_lookup m states c n :
  tally m states !! c = Some n →
  (0 < n)%nat ∧ c ∈ states ∨ m !! c = Some n.
Proof.
  revert m. induction states as [|s states IH]; intros m; simpl; [by right|].
  intros [[Hn Hin]|Hm]%IH.
  - left. split; [done|]. by right.
  - unfold increment in Hm. destruct (decide (s = c)) as [->|Hne].
    + rewrite lookup_insert_eq in Hm. injection Hm as <-.
      left. split; [lia | by left].
    + rewrite lookup_insert_ne in Hm by done. by right.
Qed.

End LoopMore.

Section LoopCases.

Variables (min_score : spec_float)
  (tag_func : list string → string → result spec_float).

Local Abbreviation classified := (classified tag_func min_score).

(** Either every record classifies, or there is a first one that does
    not. *)
Lemma classified_or_not (readpairs : list (list string)) :
  (∃ states, Forall2 classified readpairs states)
  ∨ ∃ before states bad after e,
      readpairs = before ++ bad :: after
      ∧ Forall2 classified before states
      ∧ classify tag_func min_score bad = Raise e.
Proof.
  induction readpairs as [|line1 rest IH].
  - left. exists []. constructor.
  - destruct (classify tag_func min_score line1) as [state|e] eqn:Hc.
    + destruct IH as [[states Hs]|(before & states & bad & after & e & -> & Hs & Hb)].
      * left. exists (state :: states). by constructor.
      * right. exists (line1 :: before), (state :: states), bad, after, e.
        split; [done|]. split; [by constructor | done].
    + right. exists [], [], line1, rest, e. split; [done|].
      split; [constructor | done].
Qed.

Lemma main_single_end_stopped primary_specific primary_multi unassigned
    before states bad after e :
  Forall2 classified before states →
  classify tag_func min_score bad = Raise e →
  main_single_end (before ++ bad :: after) primary_specific primary_multi
    unassigned min_score tag_func
  = (Raise e,
     output_of primary_specific primary_multi unassigned before states).
Proof.
  intros Hs Hb. unfold main_single_end.
  by rewrite (loop_stops _ _ _ _ _ _ _ _ after _ _ Hs Hb).
Qed.

Lemma classified_states_lookup readpairs states c :
  Forall2 classified readpairs states →
  c ∈ states
  ↔ Exists (fun line1 => classify tag_func min_score line1 = Return c)
      readpairs.
Proof.
  induction 1 as [|line1 state rest states H _ IH].
  - split; [by intros ?%elem_of_nil | by intros ?%Exists_nil].
  - rewrite elem_of_cons, Exists_cons, IH.
    split; (intros [?|?]; [left|by right]); unfold classified in *;
      congruence.
Qed.

End LoopCases.

(** X1: a record whose scores cannot be extracted or classified ends the
    run with its exception; the records before it have been printed as in
    a complete run, and nothing is printed for it or for the records after
    it. *)
Theorem main_single_end_interrupted (before : list (list string))
    (states : list string) (bad : list string) (after : list (list string))
    (e : exn) (primary_specific primary_multi unassigned : option handle)
    (min_score : spec_float)
    (tag_func : list string → string → result spec_float) :
  Forall2 (fun line1 state =>
             classify tag_func min_score line1 = Return state)
    before states →
  classify tag_func min_score bad = Raise e →
  main_single_end (before ++ bad :: after) primary_specific primary_multi
    unassigned min_score tag_func
  = (Raise e,
     concat (zip_with
       (fun line1 state =>
          match binding primary_specific primary_multi unassigned state with
          | Some f => [(f, Str.join Str.TAB line1 +:+ Str.LF)]
          | None => []
          end) before states)).
Proof. intros Hs Hb. by apply main_single_end_stopped. Qed.

Lemma main_single_end_interrupted_witness :
  main_single_end ([record_specific] ++ record_nan :: [record_multi])
    (Some 1%nat) (Some 2%nat) None default_min_score
    (get_tag float_of_literal)
  = (Raise (NameError "AS2"),
     [(1%nat, Str.join Str.TAB record_specific +:+ Str.LF)]).
Proof.
  apply (main_single_end_interrupted [record_specific] ["primary_specific"]
           record_nan [record_multi]).
  - repeat constructor.
  - reflexivity.
Defined.

(** X2: a run on two inputs one after the other.  When the runs on [l1]
    and on [l2] return, so does the run on [l1 ++ l2]; it prints what the
    first run prints followed by what the second prints, and each of its
    counts is the sum of the counts of the two runs. *)
Theorem main_single_end_concat (l1 l2 : list (list string))
    (primary_specific primary_multi unassigned : option handle)
    (min_score : spec_float)
    (tag_func : list string → string → result spec_float)
    (counts1 counts2 : gmap string nat) (out1 out2 : list (handle * string)) :
  main_single_end l1 primary_specific primary_multi unassigned min_score
    tag_func = (Return counts1, out1) →
  main_single_end l2 primary_specific primary_multi unassigned min_score
    tag_func = (Return counts2, out2) →
  ∃ counts,
    main_single_end (l1 ++ l2) primary_specific primary_multi unassigned
      min_score tag_func = (Return counts, out1 ++ out2)
    ∧ ∀ c, count counts c = (count counts1 c + count counts2 c)%nat.
Proof.
  intros H1 H2.
  destruct (main_single_end_returned primary_specific primary_multi
              unassigned min_score tag_func l1 counts1) as [states1 Hs1];
    [by rewrite H1|].
  destruct (main_single_end_returned primary_specific primary_multi
              unassigned min_score tag_func l2 counts2) as [states2 Hs2];
    [by rewrite H2|].
  rewrite (main_single_end_classified _ _ _ _ _ _ _ Hs1) in H1.
  rewrite (main_single_end_classified _ _ _ _ _ _ _ Hs2) in H2.
  injection H1 as <- <-. injection H2 as <- <-.
  exists (tally ∅ (states1 ++ states2)).
  rewrite (main_single_end_classified _ _ _ _ _ _ _
             (Forall2_app Hs1 Hs2)).
  rewrite (output_of_app _ _ _ _ _ _ _ (Forall2_length _ _ _ Hs1)).
  split; [done|]. intros c.
  rewrite !count_tally, filter_app, length_app. unfold count.
  rewrite lookup_empty. simpl. lia.
Qed.

Lemma main_single_end_concat_witness :
  ∃ counts,
    main_single_end ([record_specific] ++ [record_multi; record_untagged])
      (Some 1%nat) None (Some 3%nat) default_min_score
      (get_tag float_of_literal)
    = (Return counts,
       [(1%nat, Str.join Str.TAB record_specific +:+ Str.LF)]
       ++ [(3%nat, Str.join Str.TAB record_untagged +:+ Str.LF)])
    ∧ ∀ c, count counts c
           = (count (tally ∅ ["primary_specific"]) c
              + count (tally ∅ ["primary_multi"; "unassigned"]) c)%nat.
Proof.
  apply (main_single_end_concat [record_specific]
           [record_multi; record_untagged]); vm_compute; reflexivity.
Defined.

(** X3: the keys of the counter returned are the categories that occurred.
    A category is a key exactly when some record has it; every key is one
    of ['unassigned'], ['primary_specific'], ['primary_multi'] and its
    count is at least one. *)
Theorem main_single_end_keys (readpairs : list (list string))
    (primary_specific primary_multi unassigned : option handle)
    (min_score : spec_float)
    (tag_func : list string → string → result spec_float)
    (counts : gmap string nat) (out : list (handle * string)) :
  main_single_end readpairs primary_specific primary_multi unassigned
    min_score tag_func = (Return counts, out) →
  ∀ c,
    (is_Some (counts !! c)
     ↔ Exists (fun line1 => classify tag_func min_score line1 = Return c)
         readpairs)
    ∧ ∀ n, counts !! c = Some n → c ∈ categories ∧ (0 < n)%nat.
Proof.
  intros Hret c.
  destruct (main_single_end_returned primary_specific primary_multi
              unassigned min_score tag_func readpairs counts) as [states Hs];
    [by rewrite Hret|].
  rewrite (main_single_end_classified _ _ _ _ _ _ _ Hs) in Hret.
  injection Hret as <- <-.
  rewrite <- (classified_states_lookup _ _ _ _ _ Hs).
  assert (∀ n, tally ∅ states !! c = Some n → (0 < n)%nat ∧ c ∈ states)
    as Hkey.
  { intros n [?|Hn]%tally_lookup; [done|]. by rewrite lookup_empty in Hn. }
  split; [split|].
  - intros [n Hn]. by destruct (Hkey n Hn).
  - intros Hin. destruct (tally ∅ states !! c) as [n|] eqn:Hn; [eauto|].
    pose proof (count_tally ∅ states c) as Hc. unfold count in Hc.
    rewrite Hn, lookup_empty in Hc. simpl in Hc.
    apply list_elem_of_lookup_1 in Hin as [i Hi].
    assert (c ∈ filter (fun s => s = c) states) as Hf.
    { apply list_elem_of_filter. split; [done|].
      by eapply list_elem_of_lookup_2. }
    destruct (filter _ states); [by apply elem_of_nil in Hf | simpl in Hc; lia].
  - intros n Hn. destruct (Hkey n Hn) as [Hpos Hin]. split; [|done].
    apply (classified_states_lookup _ _ _ _ _ Hs) in Hin.
    apply Exists_exists in Hin as (line1 & _ & Hc).
    by eapply classify_category.
Qed.

Lemma main_single_end_keys_witness :
  (is_Some (tally ∅ ["primary_specific"; "primary_multi"] !! "unassigned")
   ↔ Exists (fun line1 =>
               classify (get_tag float_of_literal) default_min_score line1
               = Return "unassigned") [record_specific; record_multi])
  ∧ ∀ n, tally ∅ ["primary_specific"; "primary_multi"] !! "unassigned"
         = Some n →
         "unassigned" ∈ categories ∧ (0 < n)%nat.
Proof.
  apply (main_single_end_keys [record_specific; record_multi]
           (Some 1%nat) None None default_min_score
           (get_tag float_of_literal) _
           [(1%nat, Str.join Str.TAB record_specific +:+ Str.LF)]).
  vm_compute. reflexivity.
Defined.

Lemma output_of_all_bound (f1 f2 f3 : handle) (min_score : spec_float)
    (tag_func : list string → string → result spec_float)
    (readpairs : list (list string)) (states : list string) :
  Forall2 (classified tag_func min_score) readpairs states →
  (output_of (Some f1) (Some f2) (Some f3) readpairs states).*2
  = (fun line1 => Str.join Str.TAB line1 +:+ Str.LF) <$> readpairs.
Proof.
  unfold output_of.
  induction 1 as [|line1 state rest states H _ IH]; simpl; [done|].
  rewrite fmap_app, IH. f_equal.
  apply (classify_category min_score tag_func) in H.
  unfold routed, binding, categories in *.
  apply elem_of_cons in H as [->|H];
    [|apply elem_of_cons in H as [->|H];
      [|apply list_elem_of_singleton in H as ->]]; done.
Qed.

(** X4: with a file bound to each of the three categories, a run that
    returns has printed every record exactly once, in the order of the
    input: the texts printed are the records, each joined by tabs and ended
    by a line feed. *)
Theorem main_single_end_all_bound (readpairs : list (list string))
    (f1 f2 f3 : handle) (min_score : spec_float)
    (tag_func : list string → string → result spec_float)
    (counts : gmap string nat) (out : list (handle * string)) :
  main_single_end readpairs (Some f1) (Some f2) (Some f3) min_score tag_func
  = (Return counts, out) →
  out.*2 = (fun line1 => Str.join Str.TAB line1 +:+ Str.LF) <$> readpairs.
Proof.
  intros Hret.
  destruct (main_single_end_returned (Some f1) (Some f2) (Some f3)
              min_score tag_func readpairs counts) as [states Hs];
    [by rewrite Hret|].
  rewrite (main_single_end_classified _ _ _ _ _ _ _ Hs) in Hret.
  injection Hret as <- <-.
  by apply (output_of_all_bound f1 f2 f3 min_score tag_func).
Qed.

Lemma main_single_end_all_bound_witness :
  [(1%nat, Str.join Str.TAB record_specific +:+ Str.LF);
   (2%nat, Str.join Str.TAB record_multi +:+ Str.LF);
   (3%nat, Str.join Str.TAB record_untagged +:+ Str.LF)].*2
  = (fun line1 => Str.join Str.TAB line1 +:+ Str.LF)
      <$> [record_specific; record_multi; record_untagged].
Proof.
  apply (main_single_end_all_bound
           [record_specific; record_multi; record_untagged] 1%nat 2%nat 3%nat
           default_min_score (get_tag float_of_literal)
           (tally ∅ ["primary_specific"; "primary_multi"; "unassigned"])).
  vm_compute. reflexivity.
Defined.

(** X5: what [main_single_end] returns or raises does not depend on which
    output files are given: the counter, or the exception, is the same for
    any two choices of files. *)
Theorem main_single_end_counts_any_files (readpairs : list (list string))
    (primary_specific primary_multi unassigned : option handle)
    (primary_specific' primary_multi' unassigned' : option handle)
    (min_score : spec_float)
    (tag_func : list string → string → result spec_float) :
  (main_single_end readpairs primary_specific primary_multi unassigned
     min_score tag_func).1
  = (main_single_end readpairs primary_specific' primary_multi' unassigned'
       min_score tag_func).1.
Proof.
  destruct (classified_or_not min_score tag_func readpairs)
    as [[states Hs]|(before & states & bad & after & e & -> & Hs & Hb)].
  - by rewrite !(main_single_end_classified _ _ _ _ _ _ _ Hs).
  - by rewrite !(main_single_end_stopped _ _ _ _ _ _ _ _ _ _ Hs Hb).
Qed.

(** ** White-space splitting, stripping and joining *)

Section Fields.

Implicit Types (s w rest : string) (a c : ascii).

Lemma split_ws_space a s :
  Str.is_space a = true → Str.split_ws (String a s) = Str.split_ws s.
Proof. intros H. simpl. by rewrite H. Qed.

Lemma split_ws_char a s :
  Str.is_space a = false →
  Str.split_ws (String a s)
  = if at_boundary s then String a "" :: Str.split_ws s
    else match Str.split_ws s with
         | w :: ws => String a w :: ws
         | [] => [String a ""]
         end.
Proof. intros H. simpl. rewrite H. by destruct s. Qed.

Lemma field_cons a w :
  field (String a w) ↔
  Str.is_space a = false
  ∧ (w = "" ∨ field w).
Proof.
  unfold field. simpl. rewrite Forall_cons. split.
  - intros [_ [Ha Hw]]. split; [done|]. destruct w; [by left|by right].
  - intros [Ha [->|[_ Hw]]]; (split; [done|]); by constructor.
Qed.

Lemma field_boundary w : field w → at_boundary w = false.
Proof. destruct w as [|a w]; [by intros [? _]|]. by intros [? _]%field_cons. Qed.

Lemma split_ws_field w : field w → Str.split_ws w = [w].
Proof.
  induction w as [|a w IH]; [by intros [? _]|].
  intros [Ha [->|Hw]]%field_cons; rewrite (split_ws_char _ _ Ha); [done|].
  by rewrite (field_boundary _ Hw), (IH Hw).
Qed.

Lemma split_ws_field_then w c rest :
  field w → Str.is_space c = true →
  Str.split_ws (w +:+ String c rest) = w :: Str.split_ws rest.
Proof.
  intros Hw Hc. induction w as [|a w IH]; [by destruct Hw|].
  apply field_cons in Hw as [Ha Hw]. rewrite append_cons.
  rewrite (split_ws_char _ _ Ha). destruct Hw as [->|Hw].
  - rewrite append_nil_l. simpl. by rewrite Hc.
  - assert (at_boundary (w +:+ String c rest) = false) as ->.
    { destruct w as [|b w]; [by destruct Hw|].
      by apply field_cons in Hw as [? _]. }
    by rewrite (IH Hw).
Qed.

(** The pieces of [s.split()] are fields. *)
Lemma split_ws_fields s : Forall field (Str.split_ws s).
Proof.
  induction s as [|a s IH]; [constructor|].
  destruct (Str.is_space a) eqn:Ha.
  - by rewrite (split_ws_space _ _ Ha).
  - rewrite (split_ws_char _ _ Ha). destruct (at_boundary s).
    + constructor; [|done]. apply field_cons. by split; [|left].
    + destruct (Str.split_ws s) as [|w ws].
      * constructor; [|done]. apply field_cons. by split; [|left].
      * apply Forall_cons in IH as [Hw Hws]. constructor; [|done].
        apply field_cons. by split; [|right].
Qed.

(** Joining fields by tabs and splitting again gives the fields back, also
    when white space follows. *)
Lemma split_ws_join (fields : list string) c rest :
  Forall field fields → Str.is_space c = true →
  Str.split_ws (Str.join Str.TAB fields +:+ String c rest)
  = fields ++ Str.split_ws rest.
Proof.
  intros Hf Hc. induction Hf as [|w fields Hw Hf IH].
  - change (Str.split_ws (String c rest) = Str.split_ws rest).
    by apply split_ws_space.
  - destruct fields as [|w' fields].
    + change (Str.split_ws (w +:+ String c rest) = w :: Str.split_ws rest).
      by apply split_ws_field_then.
    + change (Str.join Str.TAB (w :: w' :: fields))
        with (w +:+ Str.TAB +:+ Str.join Str.TAB (w' :: fields)).
      rewrite !append_assoc. unfold Str.TAB at 1. rewrite append_cons.
      rewrite append_nil_l.
      rewrite (split_ws_field_then _ _ _ Hw); [|done].
      by rewrite IH.
Qed.

Lemma has_char_LF a : Str.has_char a Str.LF = true → Str.is_space a = true.
Proof.
  unfold Str.LF. simpl. rewrite orb_false_r, bool_decide_eq_true.
  by intros <-.
Qed.

Lemma split_ws_lstrip s : Str.split_ws (Str.lstrip Str.LF s) = Str.split_ws s.
Proof.
  induction s as [|a s IH]; [done|]. cbn [Str.lstrip].
  destruct (Str.has_char a Str.LF) eqn:Ha; [|done].
  rewrite IH. symmetry. by apply split_ws_space, has_char_LF.
Qed.

Lemma rstrip_cons_head chars a s b r :
  Str.rstrip chars (String a s) = String b r → b = a.
Proof. cbn [Str.rstrip]. case_match; [done|]. by intros [= <- _]. Qed.

Lemma at_boundary_rstrip s :
  at_boundary (Str.rstrip Str.LF s) = at_boundary s.
Proof.
  destruct s as [|a s]; [done|].
  destruct (Str.rstrip Str.LF (String a s)) as [|b r] eqn:Hr.
  - cbn [Str.rstrip] in Hr.
    destruct (Str.has_char a Str.LF) eqn:Ha; [|done].
    simpl. symmetry. by apply has_char_LF.
  - by apply rstrip_cons_head in Hr as ->.
Qed.

Lemma split_ws_rstrip s : Str.split_ws (Str.rstrip Str.LF s) = Str.split_ws s.
Proof.
  induction s as [|a s IH]; [done|]. cbn [Str.rstrip].
  destruct (Str.has_char a Str.LF && bool_decide (Str.rstrip Str.LF s = ""))
    eqn:Hcut.
  - apply andb_true_iff in Hcut as [Ha Hr%bool_decide_eq_true].
    rewrite (split_ws_space _ _ (has_char_LF _ Ha)), <- IH, Hr. done.
  - destruct (Str.is_space a) eqn:Ha.
    + by rewrite !(split_ws_space _ _ Ha).
    + by rewrite !(split_ws_char _ _ Ha), at_boundary_rstrip, IH.
Qed.

(** Line feeds at the two ends of a line do not change its fields. *)
Lemma split_ws_strip s : Str.split_ws (Str.strip Str.LF s) = Str.split_ws s.
Proof. unfold Str.strip. by rewrite split_ws_rstrip, split_ws_lstrip. Qed.

End Fields.

(** ** The reader of records: what it yields and how it stops *)

Lemma getBamReadPairs_cons (line : string) (rest : list string) :
  getBamReadPairs (line :: rest)
  = if bool_decide (Str.split_ws line = []) then ([], LoopEnded)
    else (Str.split_ws line :: (getBamReadPairs rest).1,
          (getBamReadPairs rest).2).
Proof.
  cbn [getBamReadPairs]. rewrite split_ws_strip.
  pose proof (split_ws_fields line) as Hf.
  destruct (Str.split_ws line) as [|w ws]; [done|].
  rewrite bool_decide_eq_false_2 by done.
  rewrite (bool_decide_eq_false_2 (w :: ws = [""])).
  - simpl. by destruct (getBamReadPairs rest).
  - intros [= -> ->]. apply Forall_cons in Hf as [[? _] _]. done.
Qed.

(** X6: every record that [getBamReadPairs] yields has at least one field,
    and each of its fields is not empty and contains no white space. *)
Theorem getBamReadPairs_records (bam1 : list string) :
  Forall (fun line1 => line1 ≠ [] ∧ Forall field line1)
    (getBamReadPairs bam1).1.
Proof.
  induction bam1 as [|line rest IH]; [constructor|].
  rewrite getBamReadPairs_cons. case_bool_decide as Hb; [constructor|].
  simpl. constructor; [|done]. split; [done|]. apply split_ws_fields.
Qed.

(** X7: [getBamReadPairs] yields the fields of each line up to the first
    line that has none (a line that is empty or all white space), and
    nothing from that line on.  On lines that all have fields it yields
    one record per line and stops only when [next] raises [StopIteration]
    inside the generator; at a line without fields its loop ends. *)
Theorem getBamReadPairs_until_blank (before : list string) :
  Forall (fun line => Str.split_ws line ≠ []) before →
  getBamReadPairs before = (Str.split_ws <$> before, StopIteration)
  ∧ ∀ blank after,
      Str.split_ws blank = [] →
      getBamReadPairs (before ++ blank :: after)
      = (Str.split_ws <$> before, LoopEnded).
Proof.
  induction 1 as [|line before Hline _ [IH1 IH2]].
  - split; [done|]. intros blank after Hb. simpl app.
    rewrite getBamReadPairs_cons. by rewrite bool_decide_eq_true_2.
  - split.
    + rewrite getBamReadPairs_cons, bool_decide_eq_false_2 by done.
      by rewrite IH1.
    + intros blank after Hb. simpl app.
      rewrite getBamReadPairs_cons, bool_decide_eq_false_2 by done.
      by rewrite (IH2 blank after Hb).
Qed.

Lemma getBamReadPairs_until_blank_witness :
  getBamReadPairs
    ([printed record_specific] ++ Str.LF :: [printed record_multi])
  = (Str.split_ws <$> [printed record_specific], LoopEnded).
Proof.
  apply (getBamReadPairs_until_blank [printed record_specific]).
  - repeat constructor. vm_compute. discriminate.
  - reflexivity.
Defined.

(** X8: the lines that [main_single_end] prints are read back by
    [getBamReadPairs] as the records they were printed from: for records
    with at least one field and fields that are not empty and contain no
    white space, reading the printed lines yields these records, in
    order. *)
Theorem getBamReadPairs_printed (readpairs : list (list string)) :
  Forall (fun line1 => line1 ≠ [] ∧ Forall field line1) readpairs →
  getBamReadPairs (printed <$> readpairs) = (readpairs, StopIteration).
Proof.
  induction 1 as [|line1 rest [Hne Hf] _ IH]; [done|].
  rewrite fmap_cons, getBamReadPairs_cons.
  assert (Str.split_ws (printed line1) = line1) as ->.
  { unfold printed, Str.LF. rewrite (split_ws_join _ _ _ Hf); [|done].
    simpl. by rewrite app_nil_r. }
  rewrite bool_decide_eq_false_2 by done. by rewrite IH.
Qed.

Lemma getBamReadPairs_printed_witness :
  getBamReadPairs (printed <$> [record_specific; record_multi])
  = ([record_specific; record_multi], StopIteration).
Proof.
  apply (getBamReadPairs_printed [record_specific; record_multi]).
  apply (bool_decide_unpack _). vm_compute. exact I.
Defined.

(** ** The header annotator: the comment, and a header annotated twice *)

Section HeaderMore.

Implicit Types (h lines : list string) (comment : option string).

Lemma check_header_returned h :
  check_header h = Return () →
  Forall (fun x => ∃ rest, x = String "@" rest) h.
Proof.
  unfold check_header.
  destruct (comprehension Str.first h) as [marks|e] eqn:Hm; simpl; [|done].
  case_bool_decide as Heq; simpl; [intros _|done]. subst marks.
  induction h as [|x h IH]; [constructor|].
  simpl in Hm. destruct x as [|c rest]; simpl in Hm; [done|].
  destruct (comprehension Str.first h) as [marks|]; simpl in Hm; [|done].
  injection Hm as -> ->. constructor; [by exists rest | by apply IH].
Qed.

Lemma check_header_app h lines :
  check_header h = Return () →
  Forall (fun x => ∃ rest, x = String "@" rest) lines →
  check_header (h ++ lines) = Return ().
Proof.
  intros Hh%check_header_returned Hl.
  apply check_header_marked. by apply Forall_app.
Qed.

(** The outcome of [add_pg_tag] with a comment from its outcome without. *)
Lemma add_pg_tag_comment h comment :
  add_pg_tag h comment
  = match add_pg_tag h None with
    | Return lines =>
        Return (lines ++ match comment_given comment with
                         | Some c => [co_line c]
                         | None => []
                         end)
    | Raise e => Raise e
    end.
Proof.
  unfold add_pg_tag.
  destruct (check_header h) as [[]|e]; simpl; [|done].
  destruct (previous_program h) as [PP|e]; simpl; [|done].
  destruct (comment_given comment); [done|]. by rewrite app_nil_r.
Qed.

Lemma add_pg_tag_returned h lines :
  add_pg_tag h None = Return lines →
  check_header h = Return ()
  ∧ ∃ PP, previous_program h = Return PP ∧ lines = h ++ [pg_line PP].
Proof.
  unfold add_pg_tag.
  destruct (check_header h) as [[]|e]; simpl; [|done].
  destruct (previous_program h) as [PP|e]; simpl; [|done].
  intros [= <-]. eauto.
Qed.

Lemma previous_program_after_pg h PP :
  previous_program (h ++ [pg_line PP])
  = Return ("PP:Xenomapper" +:+ Str.TAB).
Proof.
  unfold previous_program, item_last. rewrite last_snoc.
  unfold mbind, result_bind. reflexivity.
Qed.

Lemma previous_program_after_co h c :
  previous_program (h ++ [co_line c]) = Return "".
Proof.
  unfold previous_program, item_last. rewrite last_snoc.
  unfold mbind, result_bind. reflexivity.
Qed.

End HeaderMore.

(** X9: the comment has no part in whether [add_pg_tag] fails.  With any
    comment the call raises what it raises without a comment; and when it
    returns without a comment, it returns the same lines with a comment,
    followed by one [@CO] line if the comment is a string that is not
    empty. *)
Theorem add_pg_tag_comment_only (sam_header_list : list string)
    (comment : option string) :
  (∀ e, add_pg_tag sam_header_list None = Raise e →
        add_pg_tag sam_header_list comment = Raise e)
  ∧ ∀ lines, add_pg_tag sam_header_list None = Return lines →
      add_pg_tag sam_header_list comment
      = Return (lines ++ match comment with
                         | None => []
                         | Some c =>
                             if decide (c = "") then []
                             else ["@CO" +:+ Str.TAB +:+ c]
                         end).
Proof.
  rewrite (add_pg_tag_comment sam_header_list comment).
  split; [by intros e ->|]. intros lines ->.
  by destruct comment as [[|c s]|].
Qed.

Lemma add_pg_tag_comment_only_witness :
  add_pg_tag [hd_line] (Some "reads")
  = Return ([hd_line; pg_line ""] ++ ["@CO" +:+ Str.TAB +:+ "reads"]).
Proof.
  pose proof (add_pg_tag_comment_only [hd_line] (Some "reads")) as [_ H].
  apply (H [hd_line; pg_line ""]). reflexivity.
Defined.

(** X10: [add_pg_tag] accepts what it returns.  Called on a header it has
    returned, it returns again; the new [@PG] line carries
    [PP:Xenomapper] when the first call had no [@CO] line to add, and no
    [PP] when it had, since the last line is then the [@CO] line. *)
Theorem add_pg_tag_twice (sam_header_list annotated : list string)
    (comment1 comment2 : option string) :
  add_pg_tag sam_header_list comment1 = Return annotated →
  add_pg_tag annotated comment2
  = Return (annotated
            ++ pg_line (match comment1 with
                        | Some (String _ _) => ""
                        | _ => "PP:Xenomapper" +:+ Str.TAB
                        end)
            :: match comment2 with
               | Some (String _ _ as c) => [co_line c]
               | _ => []
               end).
Proof.
  rewrite (add_pg_tag_comment sam_header_list comment1).
  destruct (add_pg_tag sam_header_list None) as [lines|] eqn:Hl; [|done].
  apply add_pg_tag_returned in Hl as (Hc & PP & HPP & ->).
  intros [= <-].
  assert (∀ x : string, (∃ rest, x = String "@" rest) →
            Forall (fun x => ∃ rest, x = String "@" rest) [x]) as Hone.
  { intros x Hx. by constructor. }
  assert (check_header (sam_header_list ++ [pg_line PP]) = Return ())
    as Hc1.
  { apply (check_header_app _ _ Hc), Hone. by eexists. }
  destruct comment1 as [[|a c1]|]; cbn [comment_given];
    rewrite ?app_nil_r.
  - rewrite (add_pg_tag_steps _ comment2 _ Hc1
               (previous_program_after_pg _ _)).
    by destruct comment2 as [[|b c2]|].
  - assert (check_header ((sam_header_list ++ [pg_line PP])
                          ++ [co_line (String a c1)]) = Return ()) as Hc2.
    { apply (check_header_app _ _ Hc1), Hone. by eexists. }
    rewrite (add_pg_tag_steps _ comment2 "" Hc2
               (previous_program_after_co _ _)).
    by destruct comment2 as [[|b c2]|].
  - rewrite (add_pg_tag_steps _ comment2 _ Hc1
               (previous_program_after_pg _ _)).
    by destruct comment2 as [[|b c2]|].
Qed.

Lemma add_pg_tag_twice_witness :
  add_pg_tag [hd_line; pg_line ""] (Some "again")
  = Return ([hd_line; pg_line ""]
            ++ [pg_line ("PP:Xenomapper" +:+ Str.TAB); co_line "again"]).
Proof.
  apply (add_pg_tag_twice [hd_line] [hd_line; pg_line ""] None
           (Some "again")).
  reflexivity.
Defined.

(** X11: [process_headers] writes all the headers or none.  When the
    annotation of the header lines raises, nothing is printed on any file
    and the exception is raised.  Otherwise one block is printed for the
    specific reads, on [primary_specific] or on [sys.stdout] when that is
    [None], then one for [primary_multi] and one for [unassigned] when
    they are given; each block is the annotated header followed by the
    [@CO] line of the file. *)
Theorem process_headers_all_or_nothing (samheader1 : list string)
    (primary_specific primary_multi unassigned : option handle)
    (written : list (handle * string)) :
  (∀ e, add_pg_tag samheader1 None = Raise e →
        process_headers samheader1 primary_specific primary_multi
          unassigned written = (written, Some e))
  ∧ ∀ lines, add_pg_tag samheader1 None = Return lines →
      process_headers samheader1 primary_specific primary_multi
        unassigned written
      = (written
         ++ [(default stdout primary_specific,
              Str.join Str.LF
                (lines ++ ["@CO" +:+ Str.TAB +:+ "species specific reads"])
              +:+ Str.LF)]
         ++ match primary_multi with
            | Some f =>
                [(f, Str.join Str.LF
                       (lines ++ ["@CO" +:+ Str.TAB
                                  +:+ "species specific multimapping reads"])
                     +:+ Str.LF)]
            | None => []
            end
         ++ match unassigned with
            | Some f =>
                [(f, Str.join Str.LF
                       (lines ++ ["@CO" +:+ Str.TAB
                                  +:+ "reads that could not be assigned"])
                     +:+ Str.LF)]
            | None => []
            end, None).
Proof.
  unfold process_headers, print_header.
  rewrite !(add_pg_tag_comment samheader1 (Some _)). split.
  - by intros e ->.
  - intros lines ->. cbn [comment_given]. unfold print, co_line.
    destruct primary_multi as [f2|], unassigned as [f3|]; simpl default;
      cbv iota beta; rewrite <- ?app_assoc, ?app_nil_r; reflexivity.
Qed.

Lemma process_headers_all_or_nothing_witness :
  process_headers [hd_line; ""] (Some 1%nat) (Some 2%nat) None []
  = ([], Some IndexError).
Proof.
  pose proof (process_headers_all_or_nothing [hd_line; ""] (Some 1%nat)
                (Some 2%nat) None []) as [H _].
  apply H. reflexivity.
Defined.

Lemma strip_line_feeds (line : string) :
  Forall (fun c => c = "010"%char) (list_ascii_of_string line) →
  Str.strip Str.LF line = "".
Proof.
  intros Hlf. unfold Str.strip.
  assert (Str.lstrip Str.LF line = "") as ->; [|done].
  induction line as [|a line IH]; [done|].
  apply Forall_cons in Hlf as [-> Hlf]. simpl. by apply IH.
Qed.

(** X12: a header line made of line feeds only stops everything.  When
    the decoding process prints such a line among the header lines,
    [get_bam_header] turns it into an empty line, and [process_headers]
    raises an [IndexError] without printing on any file, whatever the
    other lines are. *)
Theorem process_headers_blank_line (header : list string) (line : string)
    (primary_specific primary_multi unassigned : option handle)
    (written : list (handle * string)) :
  line ∈ header →
  Forall (fun c => c = "010"%char) (list_ascii_of_string line) →
  process_headers (get_bam_header header) primary_specific primary_multi
    unassigned written = (written, Some IndexError).
Proof.
  intros Hin Hlf.
  pose proof (strip_line_feeds line Hlf) as Hempty.
  assert ("" ∈ get_bam_header header) as Hin'.
  { rewrite <- Hempty. unfold get_bam_header. by apply list_elem_of_fmap_2. }
  unfold process_headers, print_header, add_pg_tag.
  by rewrite (check_header_empty_line _ Hin').
Qed.

Lemma process_headers_blank_line_witness :
  process_headers (get_bam_header [hd_line +:+ Str.LF; Str.LF])
    (Some 1%nat) None None [] = ([], Some IndexError).
Proof.
  apply (process_headers_blank_line [hd_line +:+ Str.LF; Str.LF] Str.LF).
  - set_solver.
  - repeat constructor.
Defined.

(** ** The classifier and the extractor: further cases *)

(** X13: with the default threshold, negative infinity, a record is
    ['unassigned'] exactly when its best score is negative infinity, which
    is what [get_tag] returns for a record without the tag. *)
Theorem get_mapping_state_default_unassigned (AS1 XS1 : spec_float) :
  get_mapping_state AS1 XS1 default_min_score = Return "unassigned"
  ↔ AS1 = Float.neg_inf.
Proof.
  unfold get_mapping_state, default_min_score, Float.le, Float.gt, SFleb,
    SFltb, Float.neg_inf.
  split.
  - destruct AS1 as [[]|[]| |[] ? ?]; simpl; try done;
      by destruct (negb (Float.truth XS1) || _).
  - by intros ->.
Qed.

(** X14: the threshold only decides whether a record is ['unassigned'].
    Two calls on the same scores with different thresholds that both
    return a category other than ['unassigned'] return the same one. *)
Theorem get_mapping_state_threshold (AS1 XS1 t t' : spec_float)
    (state state' : string) :
  get_mapping_state AS1 XS1 t = Return state →
  get_mapping_state AS1 XS1 t' = Return state' →
  state ≠ "unassigned" → state' ≠ "unassigned" →
  state = state'.
Proof.
  unfold get_mapping_state. intros H H' Hs Hs'.
  destruct (Float.le AS1 t); [by injection H as <-|].
  destruct (Float.le AS1 t'); [by injection H' as <-|].
  destruct (Float.gt AS1 t); [|done]. destruct (Float.gt AS1 t'); [|done].
  congruence.
Qed.

Lemma get_mapping_state_threshold_witness :
  get_mapping_state (Float.of_Z 5) (Float.of_Z 5) Float.neg_inf
  = Return "primary_multi"
  ∧ get_mapping_state (Float.of_Z 5) (Float.of_Z 5) (Float.of_Z 3)
    = Return "primary_multi"
  ∧ "primary_multi" = "primary_multi".
Proof.
  split; [reflexivity|]. split; [reflexivity|].
  apply (get_mapping_state_threshold (Float.of_Z 5) (Float.of_Z 5)
           Float.neg_inf (Float.of_Z 3)); (reflexivity || discriminate).
Defined.

(** X15: a record with no more than the eleven mandatory fields has no
    tags: [get_tag] returns negative infinity for every tag name, also for
    a record with fewer than eleven fields, and never raises on it. *)
Theorem get_tag_short_record (float : string → result spec_float)
    (sam_line : list string) (tag : string) :
  (length sam_line ≤ 11)%nat →
  get_tag float sam_line tag = Return Float.neg_inf.
Proof.
  intros Hlen. unfold get_tag. by rewrite drop_ge.
Qed.

Lemma get_tag_short_record_witness :
  get_tag float_of_literal ["read1"; "4"; "*"] "AS" = Return Float.neg_inf.
Proof.
  apply (get_tag_short_record float_of_literal ["read1"; "4"; "*"] "AS").
  simpl. lia.
Defined.

(** X16: the only exceptions of [get_tag] are the [ValueError] on multiple
    values and what the conversion to a float raises on the text of the
    one matching field; its own indexing never fails. *)
Theorem get_tag_exceptions (float : string → result spec_float)
    (sam_line : list string) (tag : string) (e : exn) :
  get_tag float sam_line tag = Raise e →
  e = ValueError (MultipleValues tag sam_line)
  ∨ ∃ i x v, (11 ≤ i)%nat ∧ sam_line !! i = Some x
             ∧ after_last ":" x v ∧ float v = Raise e.
Proof.
  unfold get_tag.
  destruct (List.filter (Str.contains tag) (drop 11 sam_line))
    as [|x l] eqn:Hf; [done|].
  rewrite bool_decide_eq_false_2 by done.
  case_bool_decide as Hlen; [intros [= <-]; by left|].
  simpl. destruct (after_last_exists ":" x) as [v Hv].
  rewrite (split_last _ _ _ Hv). simpl. intros He. right.
  assert (x ∈ drop 11 sam_line) as Hin.
  { apply list_elem_of_In.
    apply (proj1 (List.filter_In (Str.contains tag) x (drop 11 sam_line))).
    rewrite Hf. by left. }
  apply list_elem_of_lookup_1 in Hin as [k Hk]. rewrite lookup_drop in Hk.
  exists (11 + k)%nat, x, v. split; [lia|]. done.
Qed.

Lemma get_tag_exceptions_witness :
  ValueError (BadFloat "high") = ValueError (MultipleValues "AS" (mandatory ++ ["AS:Z:high"]))
  ∨ ∃ i x v, (11 ≤ i)%nat ∧ (mandatory ++ ["AS:Z:high"]) !! i = Some x
             ∧ after_last ":" x v
             ∧ float_of_literal v = Raise (ValueError (BadFloat "high")).
Proof.
  apply (get_tag_exceptions float_of_literal (mandatory ++ ["AS:Z:high"])
           "AS").
  reflexivity.
Defined.

Lemma filter_Permutation {A : Type} (f : A → bool) (l l' : list A) :
  l ≡ₚ l' → List.filter f l ≡ₚ List.filter f l'.
Proof.
  induction 1 as [|x l l' _ IH|x y l|l l' l'' _ IH1 _ IH2]; simpl.
  - done.
  - destruct (f x); [by constructor | done].
  - destruct (f x), (f y); try done. apply perm_swap.
  - by etrans.
Qed.

(** X17: the order of the optional fields does not matter to [get_tag].
    Two records whose fields from index 11 on are the same up to their
    order give the same value, or both raise. *)
Theorem get_tag_field_order (float : string → result spec_float)
    (sam_line sam_line' : list string) (tag : string) :
  drop 11 sam_line ≡ₚ drop 11 sam_line' →
  returned (get_tag float sam_line tag)
  = returned (get_tag float sam_line' tag)
  ∧ raises (get_tag float sam_line tag)
    = raises (get_tag float sam_line' tag).
Proof.
  intros Hp%(filter_Permutation (Str.contains tag)). unfold get_tag.
  generalize dependent (List.filter (Str.contains tag) (drop 11 sam_line')).
  generalize dependent (List.filter (Str.contains tag) (drop 11 sam_line)).
  intros l l' Hp. destruct l as [|x [|y l]].
  - apply Permutation_nil_l in Hp. by subst l'.
  - apply Permutation_singleton_l in Hp. by subst l'.
  - pose proof (Permutation_length Hp) as Hlen.
    by destruct l' as [|x' [|y' l']].
Qed.

Lemma get_tag_field_order_witness :
  returned (get_tag float_of_literal
              (mandatory ++ ["AS:i:-10"; "XS:i:-20"]) "AS")
  = returned (get_tag float_of_literal
                (mandatory ++ ["XS:i:-20"; "AS:i:-10"]) "AS")
  ∧ raises (get_tag float_of_literal
              (mandatory ++ ["AS:i:-10"; "XS:i:-20"]) "AS")
    = raises (get_tag float_of_literal
                (mandatory ++ ["XS:i:-20"; "AS:i:-10"]) "AS").
Proof.
  apply (get_tag_field_order float_of_literal
           (mandatory ++ ["AS:i:-10"; "XS:i:-20"])
           (mandatory ++ ["XS:i:-20"; "AS:i:-10"]) "AS").
  apply perm_swap.
Defined.

(** ** The summary: its rows and their width *)

Section Summary.

Implicit Types (m : gmap string nat) (c : string) (f : handle).

Lemma foldl_print (g : string → string) f (keys : list string)
    (written : list (handle * string)) :
  foldl (fun written c => print (g c) f written) written keys
  = written ++ ((fun c => (f, g c +:+ Str.LF)) <$> keys).
Proof.
  revert written. induction keys as [|c keys IH]; intros written; simpl.
  - by rewrite app_nil_r.
  - rewrite IH. unfold print. by rewrite <- app_assoc.
Qed.

Lemma sorted_keys_sorted m : Sorted String.le (sorted_keys m).
Proof. apply (Sorted_merge_sort String.le). Qed.

Lemma sorted_keys_perm m : sorted_keys m ≡ₚ (map_to_list m).*1.
Proof. apply merge_sort_Permutation. Qed.

Lemma sorted_keys_NoDup m : NoDup (sorted_keys m).
Proof. rewrite sorted_keys_perm. apply NoDup_fst_map_to_list. Qed.

Lemma sorted_keys_elem m c : c ∈ sorted_keys m ↔ is_Some (m !! c).
Proof.
  rewrite sorted_keys_perm, list_elem_of_fmap. split.
  - intros ([c' n] & -> & Hin). apply elem_of_map_to_list in Hin. eauto.
  - intros [n Hn]. exists (c, n). split; [done|].
    by apply elem_of_map_to_list.
Qed.

Lemma length_append (s1 s2 : string) :
  String.length (s1 +:+ s2) = (String.length s1 + String.length s2)%nat.
Proof. induction s1 as [|a s1 IH]; [done|]. simpl. by rewrite IH. Qed.

Lemma length_repeat_char a n : String.length (repeat_char a n) = n.
Proof. induction n as [|n IH]; [done|]. simpl. by rewrite IH. Qed.

Lemma length_format_s width (s : string) :
  String.length (format_s width s) = (width `max` String.length s)%nat.
Proof. unfold format_s. rewrite length_append, length_repeat_char. lia. Qed.

Lemma length_format_d width n :
  String.length (format_d width n)
  = (width `max` String.length (pretty n))%nat.
Proof. unfold format_d. rewrite length_append, length_repeat_char. lia. Qed.

Lemma length_pretty_N_go (k : nat) (x : N) (s : string) :
  (x < 10 ^ N.of_nat k)%N →
  (String.length (pretty_N_go x s) ≤ k + String.length s)%nat.
Proof.
  revert x s. induction k as [|k IH]; intros x s Hx.
  - assert (x = 0%N) as -> by (simpl in Hx; lia).
    rewrite pretty_N_go_0. lia.
  - destruct (decide (x = 0%N)) as [->|Hne].
    { rewrite pretty_N_go_0. lia. }
    rewrite pretty_N_go_step by lia.
    etrans; [apply IH|simpl; lia].
    rewrite Nat2N.inj_succ, N.pow_succ_r' in Hx.
    apply N.Div0.div_lt_upper_bound. lia.
Qed.

Lemma length_pretty_nat (k n : nat) :
  (0 < k)%nat → (N.of_nat n < 10 ^ N.of_nat k)%N →
  (String.length (pretty n) ≤ k)%nat.
Proof.
  intros Hk Hn. unfold pretty, pretty_nat, pretty, pretty_N.
  case_decide; [simpl; lia|].
  etrans; [by apply (length_pretty_N_go k)|simpl; lia].
Qed.

Lemma output_summary_events m f (written : list (handle * string)) :
  output_summary m f written
  = written
    ++ [(f, summary_rule +:+ Str.LF);
        (f, ("Read Count Category Summary" +:+ Str.LF) +:+ Str.LF);
        (f, summary_head +:+ Str.LF); (f, summary_bar +:+ Str.LF)]
    ++ ((fun c => (f, summary_row c (count m c) +:+ Str.LF))
          <$> sorted_keys m)
    ++ [(f, "" +:+ Str.LF)].
Proof.
  unfold output_summary. rewrite (foldl_print (fun c => summary_row c _)).
  unfold print. by rewrite <- !app_assoc.
Qed.

End Summary.

(** X18: [output_summary] prints, on the file it is given, a rule, the
    title, the head of the table and its bar, then one row for each key of
    the counter with the count of that key, the rows in strictly
    increasing order of the keys, then an empty line; it prints nothing
    else and leaves what was written before in place. *)
Theorem output_summary_rows (category_counts : gmap string nat)
    (outfile : handle) (written : list (handle * string)) :
  ∃ keys,
    output_summary category_counts outfile written
    = written
      ++ [(outfile, summary_rule +:+ Str.LF);
          (outfile, "Read Count Category Summary" +:+ Str.LF +:+ Str.LF);
          (outfile, summary_head +:+ Str.LF);
          (outfile, summary_bar +:+ Str.LF)]
      ++ ((fun c => (outfile,
                     summary_row c (count category_counts c) +:+ Str.LF))
            <$> keys)
      ++ [(outfile, Str.LF)]
    ∧ Sorted String.le keys ∧ NoDup keys
    ∧ ∀ c, c ∈ keys ↔ is_Some (category_counts !! c).
Proof.
  exists (sorted_keys category_counts).
  split; [|split; [apply sorted_keys_sorted|split;
    [apply sorted_keys_NoDup | apply sorted_keys_elem]]].
  rewrite output_summary_events. by rewrite append_assoc.
Qed.

(** X19: the table is aligned as long as the labels and the counts fit.
    For a label of at most 50 characters and a count below 10^15, a row is
    as wide as the head and the bar of the table, 72 characters; a longer
    label or count is not cut and makes its row wider. *)
Theorem summary_row_aligned (category : string) (n : nat) :
  String.length (summary_row category n)
  = (7 + (50 `max` String.length category)
     + (15 `max` String.length (pretty n)))%nat
  ∧ ((String.length category ≤ 50)%nat → (N.of_nat n < 10 ^ 15)%N →
     String.length (summary_row category n) = 72%nat
     ∧ String.length summary_head = 72%nat
     ∧ String.length summary_bar = 72%nat).
Proof.
  assert (String.length (summary_row category n)
          = (7 + (50 `max` String.length category)
             + (15 `max` String.length (pretty n)))%nat) as Hlen.
  { unfold summary_row.
    rewrite !length_append, length_format_s, length_format_d. simpl. lia. }
  split; [done|]. intros Hc Hn.
  pose proof (length_pretty_nat 15 n ltac:(lia) Hn).
  split; [rewrite Hlen; lia|]. split; reflexivity.
Qed.

Lemma summary_row_aligned_witness :
  String.length (summary_row "primary_specific" 250) = 72%nat
  ∧ String.length summary_head = 72%nat
  ∧ String.length summary_bar = 72%nat.
Proof.
  pose proof (summary_row_aligned "primary_specific" 250) as [_ H].
  apply H; [simpl; lia | reflexivity].
Defined.

Lemma sorted_keys_of_run (min_score : spec_float)
    (tag_func : list string → string → result spec_float)
    (readpairs : list (list string)) (states : list string) :
  Forall2 (classified tag_func min_score) readpairs states →
  sorted_keys (tally ∅ states)
  = filter (fun c => (0 < count (tally ∅ states) c)%nat)
      ["primary_multi"; "primary_specific"; "unassigned"].
Proof.
  intros Hs. apply (Sorted_unique String.le).
  - apply sorted_keys_sorted.
  - rewrite !filter_cons, filter_nil.
    repeat case_decide; repeat constructor; done.
  - apply NoDup_Permutation.
    + apply sorted_keys_NoDup.
    + apply NoDup_filter. by apply (bool_decide_unpack _).
    + intros c. rewrite sorted_keys_elem, list_elem_of_filter. split.
      * intros [n Hn]. destruct (tally_lookup _ _ _ _ Hn) as [[Hpos Hin]|He].
        2: { by rewrite lookup_empty in He. }
        split; [unfold count; by rewrite Hn|].
        apply (classified_states_lookup _ _ _ _ _ Hs) in Hin.
        apply Exists_exists in Hin as (line1 & _ & Hc).
        apply (classify_category min_score tag_func) in Hc.
        unfold categories in Hc. rewrite !elem_of_cons in Hc.
        rewrite !elem_of_cons. tauto.
      * intros [Hpos _]. unfold count in Hpos.
        destruct (tally ∅ states !! c); [eauto | simpl in Hpos; lia].
Qed.

(** X20: the summary of a run.  For the counter that [main_single_end]
    returns, [output_summary] prints at most three rows, for the
    categories that occurred among the records, in the order
    ['primary_multi'], ['primary_specific'], ['unassigned'], each with its
    count. *)
Theorem output_summary_of_run (readpairs : list (list string))
    (primary_specific primary_multi unassigned : option handle)
    (min_score : spec_float)
    (tag_func : list string → string → result spec_float)
    (counts : gmap string nat) (out : list (handle * string))
    (outfile : handle) (written : list (handle * string)) :
  main_single_end readpairs primary_specific primary_multi unassigned
    min_score tag_func = (Return counts, out) →
  output_summary counts outfile written
  = written
    ++ [(outfile, summary_rule +:+ Str.LF);
        (outfile, "Read Count Category Summary" +:+ Str.LF +:+ Str.LF);
        (outfile, summary_head +:+ Str.LF);
        (outfile, summary_bar +:+ Str.LF)]
    ++ ((fun c => (outfile, summary_row c (count counts c) +:+ Str.LF))
          <$> filter (fun c => (0 < count counts c)%nat)
                ["primary_multi"; "primary_specific"; "unassigned"])
    ++ [(outfile, Str.LF)].
Proof.
  intros Hret.
  destruct (main_single_end_returned primary_specific primary_multi
              unassigned min_score tag_func readpairs counts) as [states Hs];
    [by rewrite Hret|].
  rewrite (main_single_end_classified _ _ _ _ _ _ _ Hs) in Hret.
  injection Hret as <- <-.
  rewrite output_summary_events, (sorted_keys_of_run _ _ _ _ Hs).
  by rewrite append_assoc.
Qed.

Lemma output_summary_of_run_witness :
  let counts := tally ∅ ["primary_specific"; "primary_multi"] in
  output_summary counts 2%nat []
  = []
    ++ [(2%nat, summary_rule +:+ Str.LF);
        (2%nat, "Read Count Category Summary" +:+ Str.LF +:+ Str.LF);
        (2%nat, summary_head +:+ Str.LF);
        (2%nat, summary_bar +:+ Str.LF)]
    ++ ((fun c => (2%nat, summary_row c (count counts c) +:+ Str.LF))
          <$> filter (fun c => (0 < count counts c)%nat)
                ["primary_multi"; "primary_specific"; "unassigned"])
    ++ [(2%nat, Str.LF)].
Proof.
  apply (output_summary_of_run [record_specific; record_multi]
           (Some 1%nat) None None default_min_score
           (get_tag float_of_literal) _
           [(1%nat, Str.join Str.TAB record_specific +:+ Str.LF)]).
  vm_compute. reflexivity.
Defined.
